(** * A shallow embedding of [scrape_datacentermap.py]

    The crawler of [src/scrape_datacentermap.py] is embedded function by
    function.  Python [str] values are lists of characters; Rocq's [ascii]
    gives the code points 0..255, on which [str.lower], [str.split] and the
    character classes used below are closed and are modelled exactly.
    Exceptions are results of an error monad.  The collaborators of the
    crawler (the fetcher, the HTML parser, [json.loads], [str.title], the
    iteration order of a [set]) are parameters of the development.

    [urllib.parse] is modelled after CPython 3.11 ([Lib/urllib/parse.py]),
    for [str] arguments with the default [allow_fragments=True]. *)

From Stdlib Require Import Ascii String List Bool Arith Lia DecimalString.
From stdpp Require Import base tactics option list gmap strings.

#[local] Set Warnings "-clear-no-such-hyp".

(** ** Python strings *)

Abbreviation pystr := (list ascii) (only parsing).

(** A string literal of the source. *)
Fixpoint py (s : string) : pystr :=
  match s with
  | EmptyString => []
  | String c s' => c :: py s'
  end.

Definition ord (c : ascii) : nat := nat_of_ascii c.

Definition in_range (lo hi : nat) (c : ascii) : bool :=
  (lo <=? ord c) && (ord c <=? hi).

Definition is_ascii_upper (c : ascii) : bool := in_range 65 90 c.
Definition is_ascii_lower (c : ascii) : bool := in_range 97 122 c.
Definition is_digit (c : ascii) : bool := in_range 48 57 c.

(** [c.isascii() and c.isalpha()] *)
Definition is_ascii_alpha (c : ascii) : bool :=
  is_ascii_upper c || is_ascii_lower c.

(** [c.lower()] on code points below 256: A-Z and the Latin-1 capitals
    (0xC0-0xDE except the multiplication sign 0xD7) move up by 32. *)
Definition char_lower (c : ascii) : ascii :=
  if is_ascii_upper c || (in_range 192 222 c && negb (ord c =? 215))
  then ascii_of_nat (ord c + 32)
  else c.

(** [s.lower()] *)
Definition str_lower (s : pystr) : pystr := map char_lower s.

(** [c.isspace()] on code points below 256. *)
Definition isspace (c : ascii) : bool :=
  in_range 9 13 c || in_range 28 32 c || (ord c =? 133) || (ord c =? 160).

Definition char_eqb (a b : ascii) : bool := Ascii.eqb a b.

(** [c in s] for a character [c] *)
Definition has_char (c : ascii) (s : pystr) : bool := existsb (char_eqb c) s.

(** [c in chars] with the roles swapped: is [c] one of the characters
    listed in the literal [chars]? *)
Definition one_of (chars : string) (c : ascii) : bool := has_char c (py chars).

(** [a == b] on strings *)
Definition str_eqb (a b : pystr) : bool := bool_decide (a = b).

(** [s in l] for a list of string literals *)
Definition str_in (s : pystr) (l : list string) : bool :=
  existsb (fun t => str_eqb s (py t)) l.

(** [bool(s)]: a string is true when it is not empty *)
Definition nonempty (s : pystr) : bool :=
  match s with [] => false | _ :: _ => true end.

(** The text before the first character satisfying [p] (all of [s] when
    there is none): [s[:i]] for the first such index [i]. *)
Fixpoint take_until (p : ascii -> bool) (s : pystr) : pystr :=
  match s with
  | [] => []
  | c :: s' => if p c then [] else c :: take_until p s'
  end.

(** The text from the first character satisfying [p] on (empty when there
    is none): [s[i:]]. *)
Fixpoint drop_until (p : ascii -> bool) (s : pystr) : pystr :=
  match s with
  | [] => []
  | c :: s' => if p c then s else drop_until p s'
  end.

(** [s.partition(c)[0]] and [s.partition(c)[2]]; when [c in s] these are
    the two items of [s.split(c, 1)], and [s[:i]], [s[i+1:]] for
    [i = s.find(c)]. *)
Definition before (c : ascii) (s : pystr) : pystr := take_until (char_eqb c) s.
Definition after (c : ascii) (s : pystr) : pystr := tail (drop_until (char_eqb c) s).

(** [s.rpartition(c)]: [Some (s[:k], s[k+1:])] for [k = s.rfind(c)], and
    [None] when [c] does not occur. *)
Fixpoint rsplit_char (c : ascii) (s : pystr) : option (pystr * pystr) :=
  match s with
  | [] => None
  | x :: s' =>
      match rsplit_char c s' with
      | Some (a, b) => Some (x :: a, b)
      | None => if char_eqb x c then Some ([], s') else None
      end
  end.

(** [s.startswith(prefix)] *)
Fixpoint startswith (prefix s : pystr) : bool :=
  match prefix, s with
  | [], _ => true
  | _ :: _, [] => false
  | a :: prefix', b :: s' => char_eqb a b && startswith prefix' s'
  end.

(** [s.lstrip(chars)] for the set of characters given by [p] *)
Fixpoint lstrip (p : ascii -> bool) (s : pystr) : pystr :=
  match s with
  | [] => []
  | c :: s' => if p c then lstrip p s' else s
  end.

(** [s.rstrip(chars)] *)
Definition rstrip (p : ascii -> bool) (s : pystr) : pystr :=
  rev (lstrip p (rev s)).

(** [s.strip(chars)] *)
Definition strip (p : ascii -> bool) (s : pystr) : pystr :=
  rstrip p (lstrip p s).

(** [s.replace(c, "")] *)
Definition remove_char (c : ascii) (s : pystr) : pystr :=
  filter (fun x => negb (char_eqb x c)) s.

(** [s.replace(c, d)] for single characters *)
Definition replace_char (c d : ascii) (s : pystr) : pystr :=
  map (fun x => if char_eqb x c then d else x) s.

(** The pieces of [s] between the characters satisfying [p]; never an
    empty list: [re.split] on one separator character. *)
Fixpoint split_by (p : ascii -> bool) (s : pystr) : list pystr :=
  match s with
  | [] => [[]]
  | c :: s' =>
      if p c then [] :: split_by p s'
      else match split_by p s' with
           | seg :: segs => (c :: seg) :: segs
           | [] => [[c]]
           end
  end.

(** [s.split(c)] *)
Definition split_on (c : ascii) (s : pystr) : list pystr := split_by (char_eqb c) s.

(** [s.split()]: the maximal runs of non-whitespace characters *)
Definition split_ws (s : pystr) : list pystr := filter nonempty (split_by isspace s).

(** [sep.join(l)] *)
Fixpoint join (sep : pystr) (l : list pystr) : pystr :=
  match l with
  | [] => []
  | [x] => x
  | x :: l' => x ++ sep ++ join sep l'
  end.

(** ** Exceptions *)

Inductive exn :=
  | ValueError
  | TypeError
  | AttributeError
  | HTTPError (msg : pystr)
  | URLError (msg : pystr)
  | OtherError (msg : pystr).

Inductive result (A : Type) :=
  | Ok (a : A)
  | Raise (e : exn).
Arguments Ok {A} a.
Arguments Raise {A} e.

Definition bind {A B} (r : result A) (k : A -> result B) : result B :=
  match r with
  | Ok a => k a
  | Raise e => Raise e
  end.

Declare Scope py_scope.
Delimit Scope py_scope with py.
Notation "x <- r ;; k" := (bind r (fun x => k))
  (at level 100, r at next level, right associativity) : py_scope.
Open Scope py_scope.

(** ** [urllib.parse] *)

Definition uses_relative : list string :=
  [""; "ftp"; "http"; "gopher"; "nntp"; "imap"; "wais"; "file"; "https";
   "shttp"; "mms"; "prospero"; "rtsp"; "rtspu"; "sftp"; "svn"; "svn+ssh";
   "ws"; "wss"].

Definition uses_netloc : list string :=
  [""; "ftp"; "http"; "gopher"; "nntp"; "telnet"; "imap"; "wais"; "file";
   "mms"; "https"; "shttp"; "snews"; "prospero"; "rtsp"; "rtspu"; "rsync";
   "svn"; "svn+ssh"; "sftp"; "nfs"; "git"; "git+ssh"; "ws"; "wss"].

Definition uses_params : list string :=
  [""; "ftp"; "hdl"; "prospero"; "http"; "imap"; "https"; "shttp"; "rtsp";
   "rtspu"; "sip"; "sips"; "mms"; "sftp"; "tel"].

(** [c in scheme_chars] *)
Definition is_scheme_char (c : ascii) : bool :=
  is_ascii_lower c || is_ascii_upper c || is_digit c || one_of "+-." c.

(** [c in _WHATWG_C0_CONTROL_OR_SPACE] *)
Definition is_c0_or_space (c : ascii) : bool := ord c <=? 32.

(** [c in _UNSAFE_URL_BYTES_TO_REMOVE]: tab, carriage return, newline *)
Definition is_unsafe_byte (c : ascii) : bool :=
  (ord c =? 9) || (ord c =? 13) || (ord c =? 10).

(** The three [replace(b, "")] calls of [urlsplit]. *)
Definition remove_unsafe (s : pystr) : pystr :=
  filter (fun c => negb (is_unsafe_byte c)) s.

(** The delimiters ['/?#'] that end the network location. *)
Definition is_netloc_delim (c : ascii) : bool := one_of "/?#" c.

Record SplitResult := mkSplit {
  sp_scheme : pystr;
  sp_netloc : pystr;
  sp_path : pystr;
  sp_query : pystr;
  sp_fragment : pystr
}.

Record ParseResult := mkParse {
  scheme : pystr;
  netloc : pystr;
  path : pystr;
  params : pystr;
  query : pystr;
  fragment : pystr
}.

(** [_splitparams(url)] *)
Definition splitparams (url : pystr) : pystr * pystr :=
  match rsplit_char "/" url with
  | Some (a, b) =>
      (* i = url.find(';', url.rfind('/')) *)
      if has_char ";" b
      then (a ++ "/"%char :: before ";" b, after ";" b)
      else (url, [])
  | None =>
      if has_char ";" url
      then (before ";" url, after ";" url)
      else (removelast url, url)   (* i = -1: url[:-1], url[0:] *)
  end.

(** [urlunsplit(components)] *)
Definition urlunsplit (scheme netloc url query fragment : pystr) : pystr :=
  let url :=
    if nonempty netloc
       || (nonempty scheme && str_in scheme uses_netloc
           && negb (str_eqb (take 2 url) (py "//")))
    then
      let url :=
        if nonempty url && negb (str_eqb (take 1 url) (py "/"))
        then py "/" ++ url else url in
      py "//" ++ netloc ++ url
    else url in
  let url := if nonempty scheme then scheme ++ py ":" ++ url else url in
  let url := if nonempty query then url ++ py "?" ++ query else url in
  let url := if nonempty fragment then url ++ py "#" ++ fragment else url in
  url.

(** [urlunparse(components)], which is also [ParseResult.geturl] *)
Definition urlunparse (r : ParseResult) : pystr :=
  let url := if nonempty (params r) then path r ++ py ";" ++ params r else path r in
  urlunsplit (scheme r) (netloc r) url (query r) (fragment r).

Definition geturl (r : ParseResult) : pystr := urlunparse r.

(** [segments[1:-1] = filter(None, segments[1:-1])] *)
Definition filter_middle (segments : list pystr) : list pystr :=
  match segments with
  | [] => []
  | first :: rest =>
      match last rest with
      | Some l => first :: filter nonempty (removelast rest) ++ [l]
      | None => [first]
      end
  end.

(** The loop of [urljoin] over the segments, run on the list
    [resolved_path]: [pop] removes the last item and does nothing on the
    empty list (the [IndexError] is caught). *)
Definition resolve_segment (resolved_path : list pystr) (seg : pystr) : list pystr :=
  if str_eqb seg (py "..") then removelast resolved_path
  else if str_eqb seg (py ".") then resolved_path
  else resolved_path ++ [seg].

Section Urllib.

(** [_check_bracketed_host(hostname)] returns (instead of raising
    [ValueError]): the literal between the brackets is an IPv6 or
    IPvFuture address.  It rests on the [ipaddress] module and stays a
    parameter. *)
Variable bracketed_host_ok : pystr -> bool.

(** [_check_bracketed_netloc(netloc)] returns. *)
Definition check_bracketed_netloc (netloc : pystr) : bool :=
  let hostname_and_port :=
    match rsplit_char "@" netloc with
    | Some (_, b) => b
    | None => netloc
    end in
  if has_char "[" hostname_and_port then
    let before_bracket := before "[" hostname_and_port in
    let bracketed := after "[" hostname_and_port in
    if nonempty before_bracket then false
    else
      let hostname := before "]" bracketed in
      let port := after "]" bracketed in
      if nonempty port && negb (startswith (py ":") port) then false
      else bracketed_host_ok hostname
  else bracketed_host_ok (before ":" hostname_and_port).

(** The checks of [urlsplit] on the network location pass.  On code
    points below 256 NFKC normalization yields none of ['/?#@:'], so
    [_checknetloc] never raises there and only the bracket checks remain. *)
Definition netloc_ok (netloc : pystr) : bool :=
  if (has_char "[" netloc && negb (has_char "]" netloc))
     || (has_char "]" netloc && negb (has_char "[" netloc))
  then false
  else if has_char "[" netloc && has_char "]" netloc
  then check_bracketed_netloc netloc
  else true.

(** [urlsplit(url, scheme)] *)
Definition urlsplit (url scheme : pystr) : result SplitResult :=
  let url := lstrip is_c0_or_space url in
  let scheme := strip is_c0_or_space scheme in
  let url := remove_unsafe url in
  let scheme := remove_unsafe scheme in
  (* i = url.find(':'); url[:i] is [before ":" url] *)
  let has_scheme :=
    has_char ":" url && nonempty (before ":" url)
    && match url with c :: _ => is_ascii_alpha c | [] => false end
    && forallb is_scheme_char (before ":" url) in
  let scheme := if has_scheme then str_lower (before ":" url) else scheme in
  let url := if has_scheme then after ":" url else url in
  if str_eqb (take 2 url) (py "//") then
    (* _splitnetloc(url, 2) *)
    let netloc := take_until is_netloc_delim (drop 2 url) in
    let url := drop_until is_netloc_delim (drop 2 url) in
    if netloc_ok netloc then
      let fragment := after "#" url in
      let url := before "#" url in
      let query := after "?" url in
      let url := before "?" url in
      Ok (mkSplit scheme netloc url query fragment)
    else Raise ValueError
  else
    let fragment := after "#" url in
    let url := before "#" url in
    let query := after "?" url in
    let url := before "?" url in
    Ok (mkSplit scheme [] url query fragment).

(** [urlparse(url, scheme)] *)
Definition urlparse (url scheme : pystr) : result ParseResult :=
  r <- urlsplit url scheme ;;
  let pp :=
    if str_in (sp_scheme r) uses_params && has_char ";" (sp_path r)
    then splitparams (sp_path r)
    else (sp_path r, []) in
  Ok (mkParse (sp_scheme r) (sp_netloc r) pp.1 pp.2 (sp_query r) (sp_fragment r)).

(** [urljoin(base, url)] *)
Definition urljoin (base url : pystr) : result pystr :=
  if negb (nonempty base) then Ok url
  else if negb (nonempty url) then Ok base
  else
    b <- urlparse base [] ;;
    u <- urlparse url (scheme b) ;;
    if negb (str_eqb (scheme u) (scheme b)) || negb (str_in (scheme u) uses_relative)
    then Ok url
    else if str_in (scheme u) uses_netloc && nonempty (netloc u)
    then Ok (urlunparse u)
    else
      let netloc' := if str_in (scheme u) uses_netloc then netloc b else netloc u in
      if negb (nonempty (path u)) && negb (nonempty (params u)) then
        let query' := if negb (nonempty (query u)) then query b else query u in
        Ok (urlunparse (mkParse (scheme u) netloc' (path b) (params b) query' (fragment u)))
      else
        let base_parts := split_on "/" (path b) in
        let base_parts :=
          if negb (bool_decide (last base_parts = Some []))
          then removelast base_parts else base_parts in
        let segments :=
          if str_eqb (take 1 (path u)) (py "/")
          then split_on "/" (path u)
          else filter_middle (base_parts ++ split_on "/" (path u)) in
        let resolved_path := fold_left resolve_segment segments [] in
        let resolved_path :=
          if bool_decide (last segments = Some (py ".")) || bool_decide (last segments = Some (py ".."))
          then resolved_path ++ [[]] else resolved_path in
        let joined := join (py "/") resolved_path in
        Ok (urlunparse (mkParse (scheme u) netloc'
                          (if nonempty joined then joined else py "/")
                          (params u) (query u) (fragment u))).

End Urllib.

(** ** Parsed JSON and parsed pages *)

(** The values [json.loads] returns.  Of a number the code can only
    observe its truth value, which is all that is kept of it.  A [JDict]
    lists the items of the [dict], each key once; [dict_get] reads the first
    binding of a key. *)
#[warnings="-register-all"] Inductive json :=
  | JNull
  | JBool (b : bool)
  | JNum (nonzero : bool)
  | JStr (s : pystr)
  | JList (l : list json)
  | JDict (items : list (pystr * json)).

Definition dict := list (pystr * json).

(** [d.get(k)], with [None] for a missing key *)
Fixpoint dict_get (d : dict) (k : string) : option json :=
  match d with
  | [] => None
  | (k', v) :: d' => if str_eqb k' (py k) then Some v else dict_get d' k
  end.

(** [bool(v)] *)
Definition truthy (v : json) : bool :=
  match v with
  | JNull => false
  | JBool b => b
  | JNum nonzero => nonzero
  | JStr s => nonempty s
  | JList l => match l with [] => false | _ => true end
  | JDict d => match d with [] => false | _ => true end
  end.

(** [d.get(k) or ""] *)
Definition get_or_empty (d : dict) (k : string) : json :=
  match dict_get d k with
  | Some v => if truthy v then v else JStr []
  | None => JStr []
  end.

(** [for element in v]: the items a loop over [v] visits.  A [dict] yields
    its keys, a [str] its characters; [None], booleans and numbers are not
    iterable. *)
Definition iterate (v : json) : result (list json) :=
  match v with
  | JList l => Ok l
  | JDict d => Ok (map (fun kv => JStr kv.1) d)
  | JStr s => Ok (map (fun c => JStr [c]) s)
  | JNull | JBool _ | JNum _ => Raise TypeError
  end.

(** What the crawler reads off an anchor [link] of a parsed page:
    [link["href"]], [link.get_text(" ", strip=True)], and the
    [get_text(" ", strip=True)] of the element that
    [(link.find_parent(["li", "article", "div"]) or link.parent).find(class_=...)]
    finds, when there is a container and it finds one. *)
Record Anchor := mkAnchor {
  href : pystr;
  anchor_text : pystr;
  address_candidate : option pystr
}.

(** What the crawler reads off a [BeautifulSoup] document: [script.string]
    of every [<script type="application/ld+json">] and the anchors
    [find_all("a", href=True)], both in document order. *)
Record Soup := mkSoup {
  ld_json_scripts : list (option pystr);
  anchors : list Anchor
}.

(** ** The scraper: records and extraction *)

Record DataCenter := mkDataCenter {
  name : pystr;
  url : pystr;
  address : pystr;
  city : pystr;
  state : pystr;
  postal_code : pystr
}.

(** [DATA_CENTER_PATH_RE = re.compile(r"/data[-]?cent(er|re)s?/", re.IGNORECASE)]:
    the strings the pattern matches, up to case. *)
Definition DATA_CENTER_PATH_RE : list pystr :=
  flat_map (fun dash =>
    flat_map (fun er =>
      map (fun s => py "/data" ++ py dash ++ py "cent" ++ py er ++ py s ++ py "/")
          [""; "s"])
      ["er"; "re"])
    [""; "-"].

(** [pattern.search(s)] for a case-insensitive pattern with the finite
    language [pats]: some member matches at some position of [s]. *)
Fixpoint re_search (pats : list pystr) (s : pystr) : bool :=
  existsb (fun p => startswith p (str_lower s)) pats
  || match s with
     | [] => false
     | _ :: s' => re_search pats s'
     end.

Definition normalize_whitespace (text : pystr) : pystr :=
  join (py " ") (split_ws text).

(** [normalize_whitespace(v)] for a value that need not be a [str]: only
    [str] has [split]. *)
Definition normalize_whitespace_value (v : json) : result pystr :=
  match v with
  | JStr s => Ok (normalize_whitespace s)
  | _ => Raise AttributeError
  end.

(** [a or b] on strings *)
Definition str_or (a b : pystr) : pystr := if nonempty a then a else b.

(** The body of the inner loop of [extract_from_itemlist] for an [entry]
    that is a [dict]: the record appended to [centers], if any.  The [url]
    is stored as it is; the field is annotated [str], and a true value that
    is no [str] takes the record out of the typed model ([OtherError]). *)
Definition entry_center (entry : dict) (default_state default_city : pystr)
  : result (option DataCenter) :=
  let name := get_or_empty entry "name" in
  let url := get_or_empty entry "url" in
  let address_data := dict_get entry "address" in
  let address :=
    match address_data with
    | Some (JDict a) => get_or_empty a "streetAddress" | _ => JStr [] end in
  let city :=
    match address_data with
    | Some (JDict a) => get_or_empty a "addressLocality" | _ => JStr [] end in
  let state :=
    match address_data with
    | Some (JDict a) => get_or_empty a "addressRegion" | _ => JStr [] end in
  let postal :=
    match address_data with
    | Some (JDict a) => get_or_empty a "postalCode" | _ => JStr [] end in
  if truthy name && truthy url then
    name' <- normalize_whitespace_value name ;;
    address' <- normalize_whitespace_value address ;;
    city' <- normalize_whitespace_value city ;;
    state' <- normalize_whitespace_value state ;;
    postal' <- normalize_whitespace_value postal ;;
    match url with
    | JStr url' =>
        Ok (Some (mkDataCenter name' url' address'
                    (str_or city' default_city) (str_or state' default_state)
                    postal'))
    | _ => Raise (OtherError (py "url is not a str"))
    end
  else Ok None.

(** [entry = element.get("item") if isinstance(element, dict) else None],
    and the rest of the loop body. *)
Definition element_center (element : json) (default_state default_city : pystr)
  : result (option DataCenter) :=
  match element with
  | JDict d =>
      match dict_get d "item" with
      | Some (JDict entry) => entry_center entry default_state default_city
      | _ => Ok None
      end
  | _ => Ok None
  end.

(** A loop that appends what [f] yields for each item, and stops at the
    first exception. *)
Fixpoint collect {A B} (f : A -> result (option B)) (l : list A) : result (list B) :=
  match l with
  | [] => Ok []
  | x :: l' =>
      r <- f x ;;
      rs <- collect f l' ;;
      Ok (match r with Some b => b :: rs | None => rs end)
  end.

(** The records one [item] contributes. *)
Definition item_centers (item : dict) (default_state default_city : pystr)
  : result (list DataCenter) :=
  match dict_get item "@type" with
  | Some (JStr t) =>
      if str_eqb t (py "ItemList") then
        elements <-
          match dict_get item "itemListElement" with
          | Some v => iterate v
          | None => Ok []
          end ;;
        collect (fun element => element_center element default_state default_city)
                elements
      else Ok []
  | _ => Ok []
  end.

Fixpoint extract_from_itemlist (items : list dict) (default_state default_city : pystr)
  : result (list DataCenter) :=
  match items with
  | [] => Ok []
  | item :: items' =>
      cs <- item_centers item default_state default_city ;;
      rest <- extract_from_itemlist items' default_state default_city ;;
      Ok (cs ++ rest)
  end.

(** One pass of the loop of [extract_from_links] over [link], on the pair
    [(seen, centers)]. *)
Definition link_step (base_url default_state default_city : pystr)
    (acc : gset pystr * list DataCenter) (link : Anchor)
  : gset pystr * list DataCenter :=
  if negb (re_search DATA_CENTER_PATH_RE (href link)) then acc
  else
    let url :=
      if startswith (py "/") (href link)
      then rstrip (char_eqb "/") base_url ++ href link
      else href link in
    let name := normalize_whitespace (anchor_text link) in
    if negb (nonempty name) then acc
    else if bool_decide (url ∈ acc.1) then acc
    else
      let address_text :=
        match address_candidate link with
        | Some t => normalize_whitespace t
        | None => []
        end in
      ({[url]} ∪ acc.1,
       acc.2 ++ [mkDataCenter name url address_text default_city default_state []]).

Definition extract_from_links (soup : Soup) (base_url default_state default_city : pystr)
  : list DataCenter :=
  (fold_left (link_step base_url default_state default_city) (anchors soup) (∅, [])).2.

(** One pass of the loop of [dedupe_centers], on the pair [(seen, unique)]. *)
Definition dedupe_step (acc : gset (pystr * pystr) * list DataCenter) (center : DataCenter)
  : gset (pystr * pystr) * list DataCenter :=
  let key := (name center, url center) in
  if bool_decide (key ∈ acc.1) then acc
  else ({[key]} ∪ acc.1, acc.2 ++ [center]).

Definition dedupe_centers (centers : list DataCenter) : list DataCenter :=
  (fold_left dedupe_step centers (∅, [])).2.

(** ** The scraper: URLs and the crawl *)

Section Scraper.

Variable bracketed_host_ok : pystr -> bool.

(** [str.title] *)
Variable title : pystr -> pystr.

(** [json.loads], with [None] for [json.JSONDecodeError] *)
Variable json_loads : pystr -> option json.

(** [BeautifulSoup(unescape(html), "html.parser")] *)
Variable parse_html : pystr -> Soup.

(** The order in which a loop visits a [set], given the sequence of its
    [add] calls. *)
Variable set_order : list pystr -> list pystr.

(** The fetcher: [fetch_html] only wraps [urlopen], so what it returns is
    the network's answer.  [fetch_html(url)] in a state [w] of the outside
    world returns the page text or raises, and moves the world on. *)
Variable World : Type.
Variable fetch_html : World -> pystr -> World * result pystr.

Definition parse_json_ld (soup : Soup) : list dict :=
  flat_map (fun script =>
    match script with
    | Some s =>
        if nonempty s then
          match json_loads s with
          | Some (JList payload) =>
              flat_map (fun entry =>
                match entry with JDict d => [d] | _ => [] end) payload
          | Some (JDict d) => [d]
          | _ => []
          end
        else []
    | None => []
    end) (ld_json_scripts soup).

Definition slug_to_name (slug : pystr) : pystr :=
  title (strip isspace (replace_char "-" " " slug)).

Definition extract_location_from_url (url : pystr) : result (pystr * pystr) :=
  parsed <- urlparse bracketed_host_ok url [] ;;
  let parts := filter nonempty (split_on "/" (path parsed)) in
  match parts with
  | [] => Ok ([], [])
  | p0 :: _ =>
      if negb (str_eqb (str_lower p0) (py "usa")) then Ok ([], [])
      else
        let state :=
          match parts !! 1 with Some p => slug_to_name p | None => [] end in
        let city :=
          match parts !! 2 with Some p => slug_to_name p | None => [] end in
        Ok (state, city)
  end.

Definition normalize_url (href base_url : pystr) : result pystr :=
  if negb (nonempty href) then Ok []
  else
    joined <- urljoin bracketed_host_ok base_url href ;;
    parsed <- urlparse bracketed_host_ok joined [] ;;
    if negb (str_in (scheme parsed) ["http"; "https"]) then Ok []
    else
      let normalized :=
        mkParse (scheme parsed) (netloc parsed) (path parsed) (params parsed) [] [] in
      Ok (geturl normalized).

Definition classify_location_url (url base_netloc : pystr) : result (option pystr) :=
  parsed <- urlparse bracketed_host_ok url [] ;;
  if negb (str_eqb (netloc parsed) base_netloc) then Ok None
  else
    let parts := filter nonempty (split_on "/" (path parsed)) in
    match parts with
    | [] => Ok None
    | p0 :: _ =>
        if negb (str_eqb (str_lower p0) (py "usa")) then Ok None
        else if length parts =? 2 then Ok (Some (py "state"))
        else if 3 <=? length parts then Ok (Some (py "city"))
        else Ok None
    end.

(** The loop of [extract_location_links]: the arguments of the
    [links.add] calls, in order. *)
Fixpoint location_links (links : list Anchor) (base_url base_netloc : pystr)
  : result (list pystr) :=
  match links with
  | [] => Ok []
  | link :: links' =>
      normalized <- normalize_url (href link) base_url ;;
      if negb (nonempty normalized) then location_links links' base_url base_netloc
      else
        kind <- classify_location_url normalized base_netloc ;;
        rest <- location_links links' base_url base_netloc ;;
        Ok (match kind with
            | Some _ => normalized :: rest
            | None => rest
            end)
  end.

Definition extract_location_links (soup : Soup) (base_url : pystr) : result (list pystr) :=
  parsed_base <- urlparse bracketed_host_ok base_url [] ;;
  location_links (anchors soup) base_url (netloc parsed_base).

(** The calls a crawl makes to the fetcher and to the two extractors,
    recorded to state what a run did. *)
Inductive Call :=
  | CallFetch (url : pystr)
  | CallItemlist (items : list dict) (default_state default_city : pystr)
  | CallLinks (soup : Soup) (base_url default_state default_city : pystr).

(** The variables of [scrape_centers] and what it has done to the
    outside: the fetcher's world, the lines printed to [sys.stderr], the
    files written for [dump_html], and the calls made. *)
Record Crawl := mkCrawl {
  queue : list pystr;
  visited : gset pystr;
  centers : list DataCenter;
  world : World;
  stderr : list pystr;
  files : list (pystr * pystr);
  calls : list Call
}.

Inductive outcome :=
  | Running (st : Crawl)
  | Raised (e : exn) (st : Crawl)
  | Returned (unique : list DataCenter) (st : Crawl).

Definition outcome_state (o : outcome) : Crawl :=
  match o with
  | Running st | Raised _ st | Returned _ st => st
  end.

(** [except (HTTPError, URLError) as exc]: the message when the clause
    catches [e]. *)
Definition caught (e : exn) : option pystr :=
  match e with
  | HTTPError msg | URLError msg => Some msg
  | _ => None
  end.

(** [if location_url not in visited and location_url not in queue:
    queue.append(location_url)] *)
Definition enqueue (visited : gset pystr) (queue : list pystr) (location_url : pystr)
  : list pystr :=
  if bool_decide (location_url ∉ visited) && bool_decide (location_url ∉ queue)
  then queue ++ [location_url]
  else queue.

(** Lines 239-253: the records of one page, with the extractor calls made. *)
Definition page_centers (soup : Soup) (url default_state default_city : pystr)
  : result (list DataCenter * list Call) :=
  let json_ld := parse_json_ld soup in
  page_centers <- extract_from_itemlist json_ld default_state default_city ;;
  match page_centers with
  | [] =>
      Ok (extract_from_links soup url default_state default_city,
          [CallItemlist json_ld default_state default_city;
           CallLinks soup url default_state default_city])
  | _ :: _ =>
      Ok (page_centers, [CallItemlist json_ld default_state default_city])
  end.

(** One test of [while queue] and, when it holds, one pass of the body. *)
Definition iteration (start_url : pystr) (dump_html : option pystr) (st : Crawl)
  : outcome :=
  match queue st with
  | [] => Returned (dedupe_centers (centers st)) st
  | url :: queue =>
      if bool_decide (url ∈ visited st)
      then Running (mkCrawl queue (visited st) (centers st) (world st)
                      (stderr st) (files st) (calls st))
      else
        let visited := {[url]} ∪ visited st in
        let fetched := fetch_html (world st) url in
        let calls := calls st ++ [CallFetch url] in
        match fetched.2 with
        | Raise e =>
            let st' := mkCrawl queue visited (centers st) fetched.1 in
            match caught e with
            | Some exc =>
                Running (st' (stderr st ++ [py "Failed to fetch " ++ url ++ py ": " ++ exc])
                             (files st) calls)
            | None => Raised e (st' (stderr st) (files st) calls)
            end
        | Ok html =>
            let files :=
              match dump_html with
              | Some file =>
                  if str_eqb url start_url then files st ++ [(file, html)] else files st
              | None => files st
              end in
            let soup := parse_html html in
            match extract_location_from_url url with
            | Raise e =>
                Raised e (mkCrawl queue visited (centers st) fetched.1 (stderr st) files calls)
            | Ok (default_state, default_city) =>
                match page_centers soup url default_state default_city with
                | Raise e =>
                    Raised e (mkCrawl queue visited (centers st) fetched.1 (stderr st) files
                                (calls ++ [CallItemlist (parse_json_ld soup)
                                             default_state default_city]))
                | Ok (page, made) =>
                    let centers := centers st ++ page in
                    match extract_location_links soup url with
                    | Raise e =>
                        Raised e (mkCrawl queue visited centers fetched.1 (stderr st) files
                                    (calls ++ made))
                    | Ok links =>
                        Running (mkCrawl (fold_left (enqueue visited) (set_order links) queue)
                                   visited centers fetched.1 (stderr st) files
                                   (calls ++ made))
                    end
                end
            end
        end
  end.

(** The [while] loop, for at most [fuel] passes: [Running] is a loop
    that has not finished within them. *)
Fixpoint crawl_loop (fuel : nat) (start_url : pystr) (dump_html : option pystr)
    (st : Crawl) : outcome :=
  match fuel with
  | 0 => Running st
  | S fuel' =>
      match iteration start_url dump_html st with
      | Running st' => crawl_loop fuel' start_url dump_html st'
      | o => o
      end
  end.

Definition scrape_centers (fuel : nat) (start_url : pystr) (dump_html : option pystr)
    (w : World) : outcome :=
  match normalize_url start_url start_url with
  | Raise e => Raised e (mkCrawl [] ∅ [] w [] [] [])
  | Ok seed => crawl_loop fuel start_url dump_html (mkCrawl [seed] ∅ [] w [] [] [])
  end.

End Scraper.

Arguments mkCrawl {World} queue visited centers world stderr files calls.
Arguments queue {World} c.
Arguments visited {World} c.
Arguments centers {World} c.
Arguments world {World} c.
Arguments stderr {World} c.
Arguments files {World} c.
Arguments calls {World} c.
Arguments Running {World} st.
Arguments Raised {World} e st.
Arguments Returned {World} unique st.
Arguments outcome_state {World} o.
Arguments iteration bracketed_host_ok title json_loads parse_html set_order {World}
  fetch_html start_url dump_html st.
Arguments crawl_loop bracketed_host_ok title json_loads parse_html set_order {World}
  fetch_html fuel start_url dump_html st.
Arguments scrape_centers bracketed_host_ok title json_loads parse_html set_order {World}
  fetch_html fuel start_url dump_html w.

(** ** Vocabulary of the specification *)

(** The identity of a record: its (name, url) pair. *)
Definition key (c : DataCenter) : pystr * pystr := (name c, url c).

(** [c] stands at index [i] of [cs] and no earlier record has its key. *)
Definition first_occurrence (cs : list DataCenter) (i : nat) (c : DataCenter) : Prop :=
  cs !! i = Some c /\ forall j d, j < i -> cs !! j = Some d -> key d <> key c.

(** No two adjacent characters of [s] are both whitespace. *)
Fixpoint no_adjacent_spaces (s : pystr) : Prop :=
  match s with
  | c :: (d :: _) as s' =>
      ~ (isspace c = true /\ isspace d = true) /\ no_adjacent_spaces s'
  | _ => True
  end.

(** Whitespace-normalized text: the only whitespace characters are single
    spaces between other characters. *)
Definition whitespace_normalized (s : pystr) : Prop :=
  Forall (fun c => isspace c = true -> c = " "%char) s
  /\ (forall c, head s = Some c -> isspace c = false)
  /\ (forall c, last s = Some c -> isspace c = false)
  /\ no_adjacent_spaces s.

(** The text under key [k] of [d] as the extractor reads it:
    [d.get(k) or ""] when that is a [str]. *)
Definition field_text (d : dict) (k : string) : pystr :=
  match get_or_empty d k with
  | JStr s => s
  | _ => []
  end.

(** [entry] is the ["item"] object of an element of the
    ["itemListElement"] of one of the [items] with type ["ItemList"]. *)
Definition listed_entry (items : list dict) (entry : dict) : Prop :=
  exists item v elements d,
    item ∈ items
    /\ dict_get item "@type" = Some (JStr (py "ItemList"))
    /\ dict_get item "itemListElement" = Some v
    /\ iterate v = Ok elements
    /\ JDict d ∈ elements
    /\ dict_get d "item" = Some (JDict entry).

(** The path with its parameters, as [urlunparse] writes them. *)
Definition path_with_params (p pa : pystr) : pystr :=
  if nonempty pa then p ++ py ";" ++ pa else p.

(** The query and the fragment, as [urlunsplit] writes them after a URL. *)
Definition query_and_fragment (q f : pystr) : pystr :=
  (if nonempty q then py "?" ++ q else []) ++ (if nonempty f then py "#" ++ f else []).

(** The two schemes [normalize_url] accepts. *)
Definition web_scheme (s : pystr) : Prop := s = py "http" \/ s = py "https".

(** The URLs passed to the fetcher, in order: the fetch trace. *)
Definition fetch_trace (cs : list Call) : list pystr :=
  flat_map (fun c => match c with CallFetch u => [u] | _ => [] end) cs.

(** What holds of the variables of the crawl between two passes of its
    loop: no URL was fetched twice, the visited set holds the fetched URLs,
    and the queue holds no URL twice and no visited URL. *)
Definition crawl_inv {World} (st : Crawl World) : Prop :=
  NoDup (fetch_trace (calls st))
  /\ (forall u, u ∈ fetch_trace (calls st) <-> u ∈ visited st)
  /\ NoDup (queue st)
  /\ (forall u, u ∈ queue st -> u ∉ visited st).

Section CrawlVocabulary.

Variable bracketed_host_ok : pystr -> bool.
Variable title : pystr -> pystr.
Variable json_loads : pystr -> option json.

(** The calls the crawl makes for one dequeued URL, with the records
    the page contributes.  The fetch may be all there is (it raised, or
    the location of the URL could not be read).  Otherwise the structured
    extractor runs on the page's JSON-LD items with the defaults read off
    the URL; the heuristic extractor runs, on the same defaults, exactly
    when that returned the empty list. *)
Inductive page_calls : list Call -> list DataCenter -> Prop :=
  | page_unread url :
      page_calls [CallFetch url] []
  | page_structured url soup default_state default_city r rs :
      extract_location_from_url bracketed_host_ok title url
        = Ok (default_state, default_city) ->
      extract_from_itemlist (parse_json_ld json_loads soup) default_state default_city
        = Ok (r :: rs) ->
      page_calls
        [CallFetch url;
         CallItemlist (parse_json_ld json_loads soup) default_state default_city]
        (r :: rs)
  | page_heuristic url soup default_state default_city :
      extract_location_from_url bracketed_host_ok title url
        = Ok (default_state, default_city) ->
      extract_from_itemlist (parse_json_ld json_loads soup) default_state default_city
        = Ok [] ->
      page_calls
        [CallFetch url;
         CallItemlist (parse_json_ld json_loads soup) default_state default_city;
         CallLinks soup url default_state default_city]
        (extract_from_links soup url default_state default_city)
  | page_raised url soup default_state default_city e :
      extract_location_from_url bracketed_host_ok title url
        = Ok (default_state, default_city) ->
      extract_from_itemlist (parse_json_ld json_loads soup) default_state default_city
        = Raise e ->
      page_calls
        [CallFetch url;
         CallItemlist (parse_json_ld json_loads soup) default_state default_city]
        [].

(** The calls of a crawl, page after page, with the records accumulated. *)
Inductive crawl_calls : list Call -> list DataCenter -> Prop :=
  | crawl_calls_nil : crawl_calls [] []
  | crawl_calls_page cs acc made page :
      crawl_calls cs acc -> page_calls made page ->
      crawl_calls (cs ++ made) (acc ++ page).

End CrawlVocabulary.

(** ** Sample data *)

(** A JSON object written with literal keys. *)
Definition jdict (items : list (string * json)) : json :=
  JDict (map (fun kv => (py kv.1, kv.2)) items).

Definition jstr (s : string) : json := JStr (py s).

(** A bracketed-host check that accepts no host: with it every URL with a
    bracketed host is rejected.  The sample URLs below have no brackets. *)
Definition no_brackets : pystr -> bool := fun _ => false.

(** An item list with one element, whose ["item"] is [entry]. *)
Definition item_list_of (entry : json) : dict :=
  [(py "@type", jstr "ItemList");
   (py "itemListElement", JList [jdict [("item", entry)]])].

(** The entry of the end-to-end scenario of the specification. *)
Definition acme_entry : json :=
  jdict [("name", jstr "Acme DC");
         ("url", jstr "https://example.com/facility/acme");
         ("address", jdict [("streetAddress", jstr "1 Main St");
                            ("addressLocality", jstr "Austin");
                            ("addressRegion", jstr "Texas");
                            ("postalCode", jstr "78701")])].

Definition acme_center : DataCenter :=
  mkDataCenter (py "Acme DC") (py "https://example.com/facility/acme")
    (py "1 Main St") (py "Austin") (py "Texas") (py "78701").

(** An entry whose url holds a run of spaces and ends in one. *)
Definition spaced_url_entry : json :=
  jdict [("name", jstr "Acme DC");
         ("url", jstr "https://example.com/facility/acme  dc ")].

(** An entry with an address object that names the street only. *)
Definition street_only_address : dict :=
  [(py "streetAddress", jstr "1 Main St")].

Definition street_only_entry : json :=
  jdict [("name", jstr "Acme DC");
         ("url", jstr "https://example.com/facility/acme");
         ("address", JDict street_only_address)].

(** A site of three pages.  The seed page links to two region pages;
    fetching the Texas page fails, the Ohio page holds the item list of
    [acme_entry].  The fetcher's world counts the requests made. *)
Definition seed_url : pystr := py "https://example.com/usa/".
Definition texas_url : pystr := py "https://example.com/usa/texas/".
Definition ohio_url : pystr := py "https://example.com/usa/ohio/".

Definition site_fetch (requests : nat) (url : pystr) : nat * result pystr :=
  (S requests,
   if str_eqb url seed_url then Ok (py "seed page")
   else if str_eqb url ohio_url then Ok (py "ohio page")
   else if str_eqb url texas_url then Raise (URLError (py "timed out"))
   else Raise (HTTPError (py "HTTP Error 404: Not Found"))).

Definition site_parse_html (html : pystr) : Soup :=
  if str_eqb html (py "seed page") then
    mkSoup [] [mkAnchor (py "/usa/texas/") (py "Texas") None;
               mkAnchor (py "/usa/ohio/") (py "Ohio") None]
  else if str_eqb html (py "ohio page") then
    mkSoup [Some (py "acme item list")] []
  else mkSoup [] [].

Definition site_json_loads (s : pystr) : option json :=
  if str_eqb s (py "acme item list") then Some (JDict (item_list_of acme_entry))
  else None.

(** Two iteration orders of a set: in the order of the first [add] of each
    element, and in the reverse order. *)
Definition first_added (adds : list pystr) : list pystr := remove_dups adds.
Definition last_added (adds : list pystr) : list pystr := rev (remove_dups adds).

(** The crawl of the site, with [set_order] for the sets. *)
Definition site_crawl (set_order : list pystr -> list pystr) (fuel : nat) : outcome nat :=
  scrape_centers no_brackets (fun s => s) site_json_loads site_parse_html set_order
    site_fetch fuel seed_url None 0.

(** ** Writing the records, and the command line *)

(** [str(n)] for a length *)
Definition str_of_nat (n : nat) : pystr := py (NilEmpty.string_of_uint (Nat.to_uint n)).

Definition csv_header : list pystr :=
  [py "name"; py "url"; py "address"; py "city"; py "state"; py "postal_code"].

Definition csv_row (center : DataCenter) : list pystr :=
  [name center; url center; address center; city center; state center;
   postal_code center].

(** [write_csv(centers, output_path)]: the rows handed to
    [writer.writerow], in order.  How the [csv] writer lays a row out and
    what the file system does with it are outside the model. *)
Definition write_csv (centers : list DataCenter) : list (list pystr) :=
  csv_header :: map csv_row centers.

(** The [argparse.Namespace] that [parse_args] returns; the two paths are
    kept as the text [str] gives for them. *)
Record Namespace := mkNamespace {
  arg_url : pystr;
  arg_output : pystr;
  arg_dump_html : option pystr
}.

(** What a run of [main] that returns has done: its return value, the
    lines printed to [sys.stderr] and to [sys.stdout], the HTML dumps and
    the CSV files written (the path with the rows). *)
Record Ran := mkRan {
  exit_code : nat;
  err_lines : list pystr;
  out_lines : list pystr;
  html_dumps : list (pystr * pystr);
  csv_files : list (pystr * list (list pystr))
}.

Inductive main_outcome :=
  | MainRunning
  | MainRaised (e : exn)
  | MainReturned (ran : Ran).

Section Main.

Variable bracketed_host_ok : pystr -> bool.
Variable title : pystr -> pystr.
Variable json_loads : pystr -> option json.
Variable parse_html : pystr -> Soup.
Variable set_order : list pystr -> list pystr.
Variable World : Type.
Variable fetch_html : World -> pystr -> World * result pystr.

(** [main()], for the arguments [args] that [parse_args] returned and a
    crawl of at most [fuel] passes. *)
Definition main (fuel : nat) (args : Namespace) (w : World) : main_outcome :=
  match scrape_centers bracketed_host_ok title json_loads parse_html set_order
          fetch_html fuel (arg_url args) (arg_dump_html args) w with
  | Running _ => MainRunning
  | Raised e _ => MainRaised e
  | Returned centers st =>
      match centers with
      | [] =>
          MainReturned
            (mkRan 1
               (stderr st
                ++ [py "No data centers found. Consider using --dump-html to inspect the page"])
               [] (files st) [])
      | _ :: _ =>
          MainReturned
            (mkRan 0 (stderr st)
               [py "Wrote " ++ str_of_nat (length centers) ++ py " records to "
                ++ arg_output args]
               (files st) [(arg_output args, write_csv centers)])
      end
  end.

End Main.

Arguments main bracketed_host_ok title json_loads parse_html set_order {World}
  fetch_html fuel args w.

(** ** More vocabulary *)

(** The value under [k] is missing, false, or a [str]: [d.get(k) or ""] is
    a [str]. *)
Definition text_field (d : dict) (k : string) : bool :=
  match get_or_empty d k with
  | JStr _ => true
  | _ => false
  end.

(** An entry all of whose fields that the extractor reads are text. *)
Definition text_entry (entry : dict) : bool :=
  text_field entry "name" && text_field entry "url"
  && match dict_get entry "address" with
     | Some (JDict a) =>
         text_field a "streetAddress" && text_field a "addressLocality"
         && text_field a "addressRegion" && text_field a "postalCode"
     | _ => true
     end.

Definition text_element (element : json) : bool :=
  match element with
  | JDict d =>
      match dict_get d "item" with
      | Some (JDict entry) => text_entry entry
      | _ => true
      end
  | _ => true
  end.

(** [item.get("@type") == "ItemList"] *)
Definition is_item_list (item : dict) : bool :=
  match dict_get item "@type" with
  | Some (JStr t) => str_eqb t (py "ItemList")
  | _ => false
  end.

(** An item that is no item list, or an item list whose elements can be
    looped over and hold text entries. *)
Definition text_item (item : dict) : bool :=
  negb (is_item_list item)
  || match dict_get item "itemListElement" with
     | None => true
     | Some (JList l) => forallb text_element l
     | Some (JDict _) | Some (JStr _) => true
     | Some _ => false
     end.

(** The URLs of a crawl state in the order in which the crawl takes them
    up: those fetched, then those queued. *)
Definition crawl_order {World} (st : Crawl World) : list pystr :=
  fetch_trace (calls st) ++ queue st.

(** * Deduplication *)

Lemma dedupe_state_snoc cs c :
  fold_left dedupe_step (cs ++ [c]) (∅, []) =
  dedupe_step (fold_left dedupe_step cs (∅, [])) c.
Proof. by rewrite fold_left_app. Qed.

Lemma dedupe_seen_keys cs k :
  k ∈ (fold_left dedupe_step cs (∅, [])).1 <-> k ∈ key <$> cs.
Proof.
  revert k. induction cs as [|c cs IH] using rev_ind; intros k.
  - simpl. set_solver.
  - rewrite dedupe_state_snoc, fmap_app. unfold dedupe_step at 1.
    case_bool_decide as Hin; simpl.
    + rewrite IH. apply IH in Hin. set_solver.
    + rewrite elem_of_union, IH. set_solver.
Qed.

Lemma dedupe_unique_keys cs k :
  k ∈ key <$> (fold_left dedupe_step cs (∅, [])).2 <-> k ∈ key <$> cs.
Proof.
  revert k. induction cs as [|c cs IH] using rev_ind; intros k.
  - done.
  - rewrite dedupe_state_snoc. unfold dedupe_step at 1.
    case_bool_decide as Hin; simpl.
    + rewrite IH, fmap_app. apply dedupe_seen_keys in Hin. set_solver.
    + rewrite !fmap_app, !elem_of_app, IH. set_solver.
Qed.

Lemma dedupe_centers_snoc cs c :
  dedupe_centers (cs ++ [c]) =
  if bool_decide (key c ∈ key <$> cs) then dedupe_centers cs
  else dedupe_centers cs ++ [c].
Proof.
  unfold dedupe_centers. rewrite dedupe_state_snoc. unfold dedupe_step at 1.
  pose proof (dedupe_seen_keys cs (key c)) as Hk. fold (key c).
  repeat case_bool_decide; simpl; tauto.
Qed.

Lemma first_occurrence_app_l cs cs' i c :
  first_occurrence cs i c -> first_occurrence (cs ++ cs') i c.
Proof.
  intros [Hi Hfirst]. pose proof (lookup_lt_Some _ _ _ Hi) as Hlt. split.
  - by rewrite lookup_app_l.
  - intros j d Hj Hd. rewrite lookup_app_l in Hd by lia. eauto.
Qed.

Lemma first_occurrence_new cs c :
  key c ∉ key <$> cs -> first_occurrence (cs ++ [c]) (length cs) c.
Proof.
  intros Hnew. split.
  - by rewrite lookup_app_r, Nat.sub_diag.
  - intros j d Hj Hd Hkey. rewrite lookup_app_l in Hd by done.
    apply Hnew. rewrite <- Hkey. apply list_elem_of_fmap.
    exists d. split; [done|]. by eapply list_elem_of_lookup_2.
Qed.

Lemma first_occurrence_lt cs i c : first_occurrence cs i c -> i < length cs.
Proof. intros [Hi _]. by eapply lookup_lt_Some. Qed.

(** C1: the list [dedupe_centers] returns has no two records with the same
    (name, url) pair, keeps every key of the input, holds for each key the
    first record of the input with that key, all fields included, and lists
    these records in the order of their first occurrences. *)
Theorem dedupe_centers_first_seen_wins (centers : list DataCenter) :
  NoDup (key <$> dedupe_centers centers)
  /\ (forall c, c ∈ centers -> key c ∈ key <$> dedupe_centers centers)
  /\ (forall c, c ∈ dedupe_centers centers -> exists i, first_occurrence centers i c)
  /\ (forall n m c d,
        n < m ->
        dedupe_centers centers !! n = Some c ->
        dedupe_centers centers !! m = Some d ->
        exists i j, i < j /\ first_occurrence centers i c /\ first_occurrence centers j d).
Proof.
  induction centers as [|x cs (Hnodup & Hall & Hfirst & Horder)] using rev_ind.
  - cbn. split; [constructor|]. repeat split; intros; set_solver.
  - rewrite dedupe_centers_snoc. case_bool_decide as Hseen.
    + split; [done|]. split; [|split].
      * intros c [Hc | ->%list_elem_of_singleton]%elem_of_app; [by apply Hall|].
        unfold dedupe_centers. by apply dedupe_unique_keys.
      * intros c Hc. destruct (Hfirst c Hc) as [i Hi].
        exists i. by apply first_occurrence_app_l.
      * intros n m c d Hnm Hc Hd.
        destruct (Horder n m c d Hnm Hc Hd) as (i & j & Hij & Hi & Hj).
        exists i, j. eauto using first_occurrence_app_l.
    + assert (Hfresh : key x ∉ key <$> dedupe_centers cs).
      { unfold dedupe_centers. by rewrite dedupe_unique_keys. }
      split; [|split; [|split]].
      * rewrite fmap_app. apply NoDup_app. split; [done|]. split.
        -- intros k Hk ->%list_elem_of_singleton. done.
        -- apply NoDup_singleton.
      * intros c Hc. rewrite fmap_app.
        apply elem_of_app in Hc as [Hc | ->%list_elem_of_singleton]; set_solver.
      * intros c [Hc | ->%list_elem_of_singleton]%elem_of_app.
        -- destruct (Hfirst c Hc) as [i Hi].
           exists i. by apply first_occurrence_app_l.
        -- exists (length cs). by apply first_occurrence_new.
      * intros n m c d Hnm Hc Hd.
        assert (Hn : n < length (dedupe_centers cs)).
        { apply lookup_lt_Some in Hd. rewrite length_app in Hd. simpl in Hd. lia. }
        rewrite lookup_app_l in Hc by done.
        destruct (decide (m < length (dedupe_centers cs))) as [Hm | Hm].
        -- rewrite lookup_app_l in Hd by done.
           destruct (Horder n m c d Hnm Hc Hd) as (i & j & Hij & Hi & Hj).
           exists i, j. eauto using first_occurrence_app_l.
        -- rewrite lookup_app_r in Hd by lia.
           apply list_lookup_singleton_Some in Hd as [_ <-].
           destruct (Hfirst c) as [i Hi]; [by eapply list_elem_of_lookup_2|].
           exists i, (length cs). split; [by eapply first_occurrence_lt|].
           split; [by apply first_occurrence_app_l | by apply first_occurrence_new].
Qed.

(** * Whitespace normalization *)

Lemma split_by_pieces p s : Forall (Forall (fun c => p c = false)) (split_by p s).
Proof.
  induction s as [|c s IH]; simpl.
  - repeat constructor.
  - destruct (p c) eqn:Hc.
    + by constructor.
    + destruct (split_by p s) as [|seg segs]; [repeat constructor; done|].
      inversion IH; subst. constructor; [by constructor | done].
Qed.

(** The items of [text.split()] are not empty and hold no whitespace. *)
Lemma split_ws_words s :
  Forall (fun w => w <> [] /\ Forall (fun c => isspace c = false) w) (split_ws s).
Proof.
  apply Forall_forall. intros w [Hne Hw]%list_elem_of_filter. split.
  - by destruct w.
  - pose proof (split_by_pieces isspace s) as Hall.
    rewrite Forall_forall in Hall. by apply Hall.
Qed.

Lemma no_adjacent_spaces_word w :
  Forall (fun c => isspace c = false) w -> no_adjacent_spaces w.
Proof.
  induction 1 as [|c w Hc Hw IH]; [done|].
  destruct w as [|d w]; [done|]. split; [|done].
  intros [Hsp _]. congruence.
Qed.

Lemma no_adjacent_spaces_sep w r :
  Forall (fun c => isspace c = false) w ->
  (forall c, head r = Some c -> isspace c = false) ->
  no_adjacent_spaces r ->
  no_adjacent_spaces (w ++ " "%char :: r).
Proof.
  intros Hw Hr Hadj. induction Hw as [|c w Hc Hw IH]; simpl.
  - destruct r as [|d r]; [done|]. split; [|done].
    intros [_ Hd]. rewrite (Hr d) in Hd; done.
  - destruct (w ++ " "%char :: r) as [|d t] eqn:Heq.
    + by destruct w.
    + split; [|done]. intros [Hsp _]. congruence.
Qed.

Lemma join_words_normalized ws :
  Forall (fun w => w <> [] /\ Forall (fun c => isspace c = false) w) ws ->
  whitespace_normalized (join (py " ") ws).
Proof.
  induction 1 as [|w ws [Hne Hw] Hws IH].
  - repeat split; done.
  - destruct ws as [|w' ws].
    + simpl. split; [|split; [|split]].
      * eapply Forall_impl; [exact Hw|]. intros c Hc Hsp. congruence.
      * intros c Hc. destruct w as [|c0 w]; [done|].
        inversion Hw; subst. by inversion Hc; subst.
      * intros c Hc. rewrite Forall_forall in Hw. apply Hw.
        apply last_Some in Hc as [l' ->]. set_solver.
      * by apply no_adjacent_spaces_word.
    + destruct IH as (Hchars & Hhead & Hlast & Hadj).
      change (join (py " ") (w :: w' :: ws))
        with (w ++ " "%char :: join (py " ") (w' :: ws)).
      split; [|split; [|split]].
      * apply Forall_app. split.
        -- eapply Forall_impl; [exact Hw|]. intros c Hc Hsp. congruence.
        -- by constructor.
      * intros c Hc. destruct w as [|c0 w]; [done|].
        inversion Hw; subst. by inversion Hc; subst.
      * intros c Hc. rewrite last_app, last_cons in Hc.
        destruct (last (join (py " ") (w' :: ws))) as [c'|] eqn:Hl.
        -- injection Hc as <-. by apply Hlast.
        -- apply last_None in Hl.
           inversion Hws as [|? ? [Hne' _] _]; subst.
           destruct w' as [|c1 w']; [done|]. destruct ws; simpl in Hl; done.
      * by apply no_adjacent_spaces_sep.
Qed.

Lemma normalize_whitespace_normalized text :
  whitespace_normalized (normalize_whitespace text).
Proof. apply join_words_normalized, split_ws_words. Qed.

(** * The structured extractor *)

Lemma collect_elem {A B} (f : A -> result (option B)) l rs r :
  collect f l = Ok rs -> r ∈ rs -> exists x, x ∈ l /\ f x = Ok (Some r).
Proof.
  revert rs. induction l as [|x l IH]; intros rs Hrs Hr; simpl in Hrs.
  - injection Hrs as <-. by apply elem_of_nil in Hr.
  - destruct (f x) as [o|e] eqn:Hx; simpl in Hrs; [|done].
    destruct (collect f l) as [rs'|e] eqn:Hl; simpl in Hrs; [|done].
    injection Hrs as <-.
    destruct o as [b|].
    + apply elem_of_cons in Hr as [-> | Hr].
      * exists x. split; [left | done].
      * destruct (IH rs' eq_refl Hr) as (y & Hy & Hfy). exists y. split; [by right | done].
    + destruct (IH rs' eq_refl Hr) as (y & Hy & Hfy). exists y. split; [by right | done].
Qed.

Lemma element_center_Some element ds dc r :
  element_center element ds dc = Ok (Some r) ->
  exists d entry,
    element = JDict d /\ dict_get d "item" = Some (JDict entry)
    /\ entry_center entry ds dc = Ok (Some r).
Proof.
  unfold element_center. intros H.
  destruct element as [| | | |l|d]; try done.
  destruct (dict_get d "item") as [[| | | | |entry]|] eqn:Hitem; try done.
  by exists d, entry.
Qed.

Lemma item_centers_elem item ds dc cs r :
  item_centers item ds dc = Ok cs -> r ∈ cs ->
  exists entry, listed_entry [item] entry /\ entry_center entry ds dc = Ok (Some r).
Proof.
  unfold item_centers. intros Hcs Hr.
  destruct (dict_get item "@type") as [[| | |t| |]|] eqn:Htype;
    try (injection Hcs as <-; by apply elem_of_nil in Hr).
  unfold str_eqb in Hcs. case_bool_decide as Ht; subst;
    [|injection Hcs as <-; by apply elem_of_nil in Hr].
  destruct (dict_get item "itemListElement") as [v|] eqn:Hv; simpl in Hcs.
  - destruct (iterate v) as [elements|e] eqn:Hit; simpl in Hcs; [|done].
    destruct (collect_elem _ _ _ _ Hcs Hr) as (element & Hel & Hcenter).
    apply element_center_Some in Hcenter as (d & entry & -> & Hitem & Hentry).
    exists entry. split; [|done].
    exists item, v, elements, d. repeat split; try done. by left.
  - injection Hcs as <-. by apply elem_of_nil in Hr.
Qed.

Lemma listed_entry_cons item items entry :
  listed_entry [item] entry \/ listed_entry items entry ->
  listed_entry (item :: items) entry.
Proof.
  intros [(i & v & els & d & Hi & H) | (i & v & els & d & Hi & H)];
    exists i, v, els, d; (split; [|done]).
  - apply list_elem_of_singleton in Hi as ->. by left.
  - by right.
Qed.

Lemma extract_from_itemlist_elem items ds dc recs r :
  extract_from_itemlist items ds dc = Ok recs -> r ∈ recs ->
  exists entry, listed_entry items entry /\ entry_center entry ds dc = Ok (Some r).
Proof.
  revert recs. induction items as [|item items IH]; intros recs Hrecs Hr; simpl in Hrecs.
  - injection Hrecs as <-. by apply elem_of_nil in Hr.
  - destruct (item_centers item ds dc) as [cs|e] eqn:Hitem; simpl in Hrecs; [|done].
    destruct (extract_from_itemlist items ds dc) as [rest|e] eqn:Hrest;
      simpl in Hrecs; [|done].
    injection Hrecs as <-. apply elem_of_app in Hr as [Hr | Hr].
    + destruct (item_centers_elem _ _ _ _ _ Hitem Hr) as (entry & Hl & He).
      exists entry. split; [|done]. apply listed_entry_cons. by left.
    + destruct (IH rest eq_refl Hr) as (entry & Hl & He).
      exists entry. split; [|done]. apply listed_entry_cons. by right.
Qed.

Lemma normalize_whitespace_value_Ok v s :
  normalize_whitespace_value v = Ok s ->
  exists t, v = JStr t /\ s = normalize_whitespace t.
Proof. destruct v; simpl; intros H; try done. injection H as <-. eauto. Qed.

Lemma get_or_empty_str d k s :
  get_or_empty d k = JStr s -> s <> [] -> dict_get d k = Some (JStr s).
Proof.
  unfold get_or_empty. intros H Hs.
  destruct (dict_get d k) as [v|]; [|congruence].
  destruct (truthy v); congruence.
Qed.

(** What a record built by the loop body holds, field by field. *)
Lemma entry_center_Some entry ds dc r :
  entry_center entry ds dc = Ok (Some r) ->
  name r = normalize_whitespace (field_text entry "name")
  /\ dict_get entry "url" = Some (JStr (url r))
  /\ match dict_get entry "address" with
     | Some (JDict a) =>
         address r = normalize_whitespace (field_text a "streetAddress")
         /\ city r = str_or (normalize_whitespace (field_text a "addressLocality")) dc
         /\ state r = str_or (normalize_whitespace (field_text a "addressRegion")) ds
         /\ postal_code r = normalize_whitespace (field_text a "postalCode")
     | _ => address r = [] /\ city r = dc /\ state r = ds /\ postal_code r = []
     end.
Proof.
  unfold entry_center. intros H.
  destruct (truthy (get_or_empty entry "name") && truthy (get_or_empty entry "url"))
    eqn:Htruthy; [|done].
  apply andb_prop in Htruthy as [Hname Hurl].
  repeat match type of H with
  | bind (normalize_whitespace_value ?v) _ = _ =>
      let s := fresh "s" in let Hs := fresh "Hs" in
      destruct (normalize_whitespace_value v) as [s|] eqn:Hs; simpl in H; [|done];
      apply normalize_whitespace_value_Ok in Hs as (? & ? & ->)
  end.
  destruct (get_or_empty entry "url") as [| | |u| |] eqn:Hu; try done.
  injection H as <-. simpl.
  split; [unfold field_text; by rewrite H0|].
  split; [apply get_or_empty_str; [done | by destruct u]|].
  destruct (dict_get entry "address") as [[| | | | |a]|];
    try (injection H1 as <-; injection H2 as <-; injection H3 as <-;
         injection H4 as <-; done).
  unfold field_text. by rewrite H1, H2, H3, H4.
Qed.

Lemma str_or_normalized a b :
  whitespace_normalized a -> whitespace_normalized (str_or a b) \/ str_or a b = b.
Proof. unfold str_or. destruct (nonempty a); auto. Qed.

Example extract_acme :
  extract_from_itemlist [item_list_of acme_entry] [] [] = Ok [acme_center].
Proof. vm_compute. reflexivity. Qed.

(** C9 (as stated, fails): the url of a record of the structured extractor
    is stored as the entry gives it, whitespace included. *)
Lemma structured_url_keeps_whitespace :
  exists r,
    extract_from_itemlist [item_list_of spaced_url_entry] [] [] = Ok [r]
    /\ ~ whitespace_normalized (url r).
Proof.
  eexists. split; [vm_compute; reflexivity|].
  intros (_ & _ & Hlast & _). specialize (Hlast " "%char eq_refl). done.
Qed.

(** C9 (amended): in every record of the structured extractor the name, the
    address and the postal code are whitespace-normalized; the city and the
    state are whitespace-normalized or are the caller's defaults; the url is
    the entry's url value, unchanged. *)
Theorem structured_text_fields_normalized
    (items : list dict) (default_state default_city : pystr)
    (recs : list DataCenter) (r : DataCenter) :
  extract_from_itemlist items default_state default_city = Ok recs ->
  r ∈ recs ->
  whitespace_normalized (name r)
  /\ whitespace_normalized (address r)
  /\ whitespace_normalized (postal_code r)
  /\ (whitespace_normalized (city r) \/ city r = default_city)
  /\ (whitespace_normalized (state r) \/ state r = default_state)
  /\ exists entry, listed_entry items entry /\ dict_get entry "url" = Some (JStr (url r)).
Proof.
  intros Hrecs Hr.
  destruct (extract_from_itemlist_elem _ _ _ _ _ Hrecs Hr) as (entry & Hlisted & Hentry).
  apply entry_center_Some in Hentry as (Hname & Hurl & Haddr).
  assert (Hnil : whitespace_normalized []) by (repeat split; done).
  assert (whitespace_normalized (name r))
    by (rewrite Hname; apply normalize_whitespace_normalized).
  assert (whitespace_normalized (address r) /\ whitespace_normalized (postal_code r)
          /\ (whitespace_normalized (city r) \/ city r = default_city)
          /\ (whitespace_normalized (state r) \/ state r = default_state))
    as (? & ? & ? & ?).
  { destruct (dict_get entry "address") as [[| | | | |a]|];
      destruct Haddr as (-> & -> & -> & ->);
      (split; [|split; [|split]]);
      auto using normalize_whitespace_normalized, str_or_normalized. }
  do 5 (split; [done|]). by exists entry.
Qed.

Lemma structured_text_fields_normalized_witness :
  extract_from_itemlist [item_list_of acme_entry] [] [] = Ok [acme_center]
  /\ whitespace_normalized (name acme_center)
  /\ whitespace_normalized (address acme_center).
Proof.
  assert (H : extract_from_itemlist [item_list_of acme_entry] [] [] = Ok [acme_center])
    by (vm_compute; reflexivity).
  split; [exact H|].
  destruct (structured_text_fields_normalized
              [item_list_of acme_entry] [] [] [acme_center] acme_center H)
    as (Hn & Ha & _).
  - left.
  - split; assumption.
Defined.

(** C10 (as stated, fails): an entry with an address object that has no
    locality and no region gets the caller's default city and state. *)
Lemma address_object_falls_back_to_defaults :
  exists r,
    extract_from_itemlist [item_list_of street_only_entry] (py "Texas") (py "Austin")
      = Ok [r]
    /\ dict_get
         [(py "name", jstr "Acme DC");
          (py "url", jstr "https://example.com/facility/acme");
          (py "address", JDict street_only_address)] "address"
       = Some (JDict street_only_address)
    /\ city r = py "Austin"
    /\ city r <> normalize_whitespace (field_text street_only_address "addressLocality")
    /\ state r = py "Texas"
    /\ state r <> normalize_whitespace (field_text street_only_address "addressRegion").
Proof.
  eexists. split; [vm_compute; reflexivity|].
  repeat split; try (vm_compute; reflexivity); vm_compute; discriminate.
Qed.

(** C10 (amended): every record of the structured extractor comes from a
    listed entry.  When the entry has an address object, the address and the
    postal code are its (whitespace-normalized) street and postal code, and
    the city and the state are its locality and region when these are not
    empty after normalization, and the caller's defaults otherwise.  When the
    entry has no address object, the address and the postal code are empty
    and the city and the state are the caller's defaults. *)
Theorem structured_address_fields
    (items : list dict) (default_state default_city : pystr)
    (recs : list DataCenter) (r : DataCenter) :
  extract_from_itemlist items default_state default_city = Ok recs ->
  r ∈ recs ->
  exists entry,
    listed_entry items entry
    /\ match dict_get entry "address" with
       | Some (JDict a) =>
           address r = normalize_whitespace (field_text a "streetAddress")
           /\ city r =
                str_or (normalize_whitespace (field_text a "addressLocality")) default_city
           /\ state r =
                str_or (normalize_whitespace (field_text a "addressRegion")) default_state
           /\ postal_code r = normalize_whitespace (field_text a "postalCode")
       | _ =>
           address r = [] /\ city r = default_city /\ state r = default_state
           /\ postal_code r = []
       end.
Proof.
  intros Hrecs Hr.
  destruct (extract_from_itemlist_elem _ _ _ _ _ Hrecs Hr) as (entry & Hlisted & Hentry).
  apply entry_center_Some in Hentry as (_ & _ & Haddr).
  by exists entry.
Qed.

Lemma structured_address_fields_witness :
  extract_from_itemlist [item_list_of acme_entry] (py "Ohio") (py "Akron")
    = Ok [acme_center]
  /\ exists entry, listed_entry [item_list_of acme_entry] entry.
Proof.
  assert (H : extract_from_itemlist [item_list_of acme_entry] (py "Ohio") (py "Akron")
              = Ok [acme_center]) by (vm_compute; reflexivity).
  split; [exact H|].
  destruct (structured_address_fields
              [item_list_of acme_entry] (py "Ohio") (py "Akron") [acme_center] acme_center H)
    as (entry & Hlisted & _).
  - left.
  - by exists entry.
Defined.

(** * Characters and splitting *)

Lemma char_eqb_eq a b : char_eqb a b = true <-> a = b.
Proof. apply Ascii.eqb_eq. Qed.

Lemma char_eqb_refl a : char_eqb a a = true.
Proof. by apply char_eqb_eq. Qed.

Lemma has_char_app c a b : has_char c (a ++ b) = has_char c a || has_char c b.
Proof. apply existsb_app. Qed.

Lemma has_char_false c s :
  has_char c s = false <-> Forall (fun x => x <> c) s.
Proof.
  induction s as [|x s IH]; simpl.
  - split; [constructor | done].
  - rewrite orb_false_iff, IH, Forall_cons. unfold char_eqb.
    rewrite <- not_true_iff_false, Ascii.eqb_eq. naive_solver.
Qed.

Lemma has_char_true c s : has_char c s = true <-> c ∈ s.
Proof.
  induction s as [|x s IH]; simpl.
  - split; [done | by intros ?%elem_of_nil].
  - rewrite orb_true_iff, IH, elem_of_cons, char_eqb_eq. done.
Qed.

Lemma take_drop_until p s : take_until p s ++ drop_until p s = s.
Proof. induction s as [|c s IH]; simpl; [done|]. destruct (p c); simpl; congruence. Qed.

Lemma take_until_app p a b :
  Forall (fun c => p c = false) a ->
  take_until p (a ++ b) = a ++ take_until p b.
Proof. induction 1 as [|c a Hc Ha IH]; simpl; [done|]. by rewrite Hc, IH. Qed.

Lemma drop_until_app p a b :
  Forall (fun c => p c = false) a ->
  drop_until p (a ++ b) = drop_until p b.
Proof. induction 1 as [|c a Hc Ha IH]; simpl; [done|]. by rewrite Hc. Qed.

Lemma take_until_all p s :
  Forall (fun c => p c = false) s -> take_until p s = s.
Proof. intros H. rewrite <- (app_nil_r s) at 1. rewrite take_until_app by done. apply app_nil_r. Qed.

Lemma drop_until_all p s :
  Forall (fun c => p c = false) s -> drop_until p s = [].
Proof. intros H. rewrite <- (app_nil_r s). by rewrite drop_until_app. Qed.

Lemma take_until_Forall p s : Forall (fun c => p c = false) (take_until p s).
Proof.
  induction s as [|c s IH]; simpl; [constructor|].
  destruct (p c) eqn:Hc; [constructor | by constructor].
Qed.

(** What follows the text before the first [p] character is empty or
    starts with a [p] character. *)
Lemma drop_until_head p s :
  drop_until p s = [] \/ exists c t, drop_until p s = c :: t /\ p c = true.
Proof.
  induction s as [|c s IH]; simpl; [by left|].
  destruct (p c) eqn:Hc; [right; eauto | done].
Qed.

Lemma Forall_ne_char_eqb c s :
  Forall (fun x => x <> c) s -> Forall (fun x => char_eqb c x = false) s.
Proof.
  intros H. eapply Forall_impl; [exact H|]. intros x Hx. apply not_true_iff_false.
  rewrite char_eqb_eq. congruence.
Qed.

Lemma before_absent c s : has_char c s = false -> before c s = s.
Proof. intros H%has_char_false%Forall_ne_char_eqb. by apply take_until_all. Qed.

Lemma after_absent c s : has_char c s = false -> after c s = [].
Proof.
  intros H%has_char_false%Forall_ne_char_eqb. unfold after.
  by rewrite drop_until_all.
Qed.

Lemma before_sep c a b : has_char c a = false -> before c (a ++ c :: b) = a.
Proof.
  intros H%has_char_false%Forall_ne_char_eqb. unfold before.
  rewrite take_until_app by done. simpl. rewrite char_eqb_refl. apply app_nil_r.
Qed.

Lemma after_sep c a b : has_char c a = false -> after c (a ++ c :: b) = b.
Proof.
  intros H%has_char_false%Forall_ne_char_eqb. unfold after.
  rewrite drop_until_app by done. simpl. by rewrite char_eqb_refl.
Qed.

Lemma has_char_before c s : has_char c (before c s) = false.
Proof.
  apply has_char_false. unfold before.
  eapply Forall_impl; [apply take_until_Forall|].
  intros x Hx ->. by rewrite char_eqb_refl in Hx.
Qed.

(** [before] and [after] cut [s] at a [c], when there is one. *)
Lemma before_after c s :
  has_char c s = true -> s = before c s ++ c :: after c s.
Proof.
  intros Hc. unfold before, after.
  destruct (drop_until_head (char_eqb c) s) as [Hnil | (x & t & Ht & Hx)].
  - pose proof (take_drop_until (char_eqb c) s) as Hs. rewrite Hnil, app_nil_r in Hs.
    pose proof (has_char_before c s) as Hno. unfold before in Hno.
    rewrite Hs in Hno. congruence.
  - apply char_eqb_eq in Hx as <-. rewrite Ht. simpl.
    rewrite <- Ht. symmetry. apply take_drop_until.
Qed.

(** The pieces [before] and [after] keep only characters of [s]. *)
Lemma before_subseteq c s : before c s ⊆ s.
Proof.
  intros x Hx. rewrite <- (take_drop_until (char_eqb c) s). apply elem_of_app. by left.
Qed.

Lemma after_subseteq c s : after c s ⊆ s.
Proof.
  intros x Hx. rewrite <- (take_drop_until (char_eqb c) s). apply elem_of_app. right.
  unfold after in Hx. destruct (drop_until (char_eqb c) s); [done | by right].
Qed.

Lemma rsplit_char_Some c s a b :
  rsplit_char c s = Some (a, b) -> s = a ++ c :: b /\ has_char c b = false.
Proof.
  revert a b. induction s as [|x s IH]; intros a b H; simpl in H; [done|].
  destruct (rsplit_char c s) as [[a' b']|] eqn:Hs.
  - injection H as <- <-. destruct (IH a' b' eq_refl) as [-> Hb]. done.
  - destruct (char_eqb x c) eqn:Hx; [|done]. injection H as <- <-.
    apply char_eqb_eq in Hx as ->. split; [done|].
    clear IH. induction s as [|y s IH]; [done|]. simpl in Hs.
    destruct (rsplit_char c s) as [[a' b']|]; [done|].
    destruct (char_eqb y c) eqn:Hy; [done|]. simpl.
    rewrite IH by done. unfold char_eqb in *. by rewrite Ascii.eqb_sym, Hy.
Qed.

Lemma rsplit_char_sep c a b :
  has_char c b = false -> rsplit_char c (a ++ c :: b) = Some (a, b).
Proof.
  intros Hb. assert (Hnone : rsplit_char c b = None).
  { induction b as [|y b IH]; [done|]. simpl in *.
    apply orb_false_iff in Hb as [Hy Hb]. rewrite IH by done.
    unfold char_eqb in *. by rewrite Ascii.eqb_sym, Hy. }
  induction a as [|x a IH]; simpl.
  - by rewrite Hnone, char_eqb_refl.
  - by rewrite IH.
Qed.

Lemma rsplit_char_None c s : rsplit_char c s = None -> has_char c s = false.
Proof.
  induction s as [|x s IH]; [done|]. simpl.
  destruct (rsplit_char c s) as [[a b]|]; [done|].
  destruct (char_eqb x c) eqn:Hx; [done|]. intros _.
  rewrite IH by done. unfold char_eqb in *. by rewrite Ascii.eqb_sym, Hx.
Qed.

(** * What [urlsplit] and [urlparse] return *)

Lemma Forall_subseteq_list {A} (P : A -> Prop) (a b : list A) :
  a ⊆ b -> Forall P b -> Forall P a.
Proof. rewrite !Forall_forall. intros Hab Hb x Hx. apply Hb, Hab, Hx. Qed.

Lemma take_until_subseteq p s : take_until p s ⊆ s.
Proof. intros x Hx. rewrite <- (take_drop_until p s). apply elem_of_app. by left. Qed.

Lemma drop_until_subseteq p s : drop_until p s ⊆ s.
Proof. intros x Hx. rewrite <- (take_drop_until p s). apply elem_of_app. by right. Qed.

Lemma drop_subseteq {A} n (s : list A) : drop n s ⊆ s.
Proof. intros x Hx. rewrite <- (take_drop n s). apply elem_of_app. by right. Qed.

Lemma remove_unsafe_clean s : Forall (fun c => is_unsafe_byte c = false) (remove_unsafe s).
Proof.
  apply Forall_forall. intros c [Hc _]%list_elem_of_filter.
  by destruct (is_unsafe_byte c).
Qed.

Lemma remove_unsafe_id s :
  Forall (fun c => is_unsafe_byte c = false) s -> remove_unsafe s = s.
Proof.
  induction 1 as [|c s Hc Hs IH]; [done|]. unfold remove_unsafe in *.
  rewrite filter_cons_True by (by rewrite Hc). by rewrite IH.
Qed.

Lemma is_netloc_delim_true c :
  is_netloc_delim c = true -> c = "/"%char \/ c = "?"%char \/ c = "#"%char.
Proof.
  unfold is_netloc_delim, one_of. simpl. rewrite !orb_true_iff, !char_eqb_eq.
  naive_solver.
Qed.

(** The path that the rest of a URL after its network location gives is
    empty or starts with a slash. *)
Lemma path_after_netloc rest :
  (rest = [] \/ exists c t, rest = c :: t /\ is_netloc_delim c = true) ->
  before "?" (before "#" rest) = []
  \/ exists t, before "?" (before "#" rest) = "/"%char :: t.
Proof.
  intros [-> | (c & t & -> & Hc)]; [by left|].
  apply is_netloc_delim_true in Hc as [-> | [-> | ->]]; [right | left | left]; try done.
  unfold before. simpl. eauto.
Qed.

Lemma urlsplit_Ok bho url dflt r :
  urlsplit bho url dflt = Ok r ->
  Forall (fun c => is_unsafe_byte c = false) (sp_netloc r)
  /\ Forall (fun c => is_unsafe_byte c = false) (sp_path r)
  /\ Forall (fun c => is_netloc_delim c = false) (sp_netloc r)
  /\ has_char "?" (sp_path r) = false
  /\ has_char "#" (sp_path r) = false
  /\ netloc_ok bho (sp_netloc r) = true
  /\ (sp_netloc r <> [] -> sp_path r = [] \/ exists t, sp_path r = "/"%char :: t).
Proof.
  unfold urlsplit.
  set (url1 := remove_unsafe (lstrip is_c0_or_space url)).
  set (has_scheme := _ && _ && _ && _).
  set (url2 := if has_scheme then after ":" url1 else url1).
  assert (Hclean : Forall (fun c => is_unsafe_byte c = false) url2).
  { eapply Forall_subseteq_list; [|apply (remove_unsafe_clean (lstrip is_c0_or_space url))].
    unfold url2. destruct has_scheme; [apply after_subseteq | done]. }
  assert (Hhash : forall s, has_char "#" (before "?" (before "#" s)) = false).
  { intros s. apply has_char_false. eapply Forall_subseteq_list; [apply before_subseteq|].
    apply has_char_false, has_char_before. }
  destruct (str_eqb (take 2 url2) (py "//")).
  - destruct (netloc_ok bho _) eqn:Hok; [|done].
    intros [= <-]. simpl.
    split; [|split; [|split; [|split; [|split; [|split]]]]].
    + eapply Forall_subseteq_list; [|exact Hclean].
      etrans; [apply take_until_subseteq | apply drop_subseteq].
    + eapply Forall_subseteq_list; [|exact Hclean].
      etrans; [apply before_subseteq|]. etrans; [apply before_subseteq|].
      etrans; [apply drop_until_subseteq | apply drop_subseteq].
    + apply take_until_Forall.
    + apply has_char_before.
    + apply Hhash.
    + done.
    + intros _. apply path_after_netloc, drop_until_head.
  - intros [= <-]. simpl.
    split; [constructor|]. split; [|split; [constructor|]].
    + eapply Forall_subseteq_list; [|exact Hclean].
      etrans; [apply before_subseteq | apply before_subseteq].
    + split; [apply has_char_before|]. split; [apply Hhash|]. split; done.
Qed.

Lemma nonempty_true (s : pystr) : nonempty s = true <-> s <> [].
Proof. by destruct s. Qed.

Lemma nonempty_false (s : pystr) : nonempty s = false <-> s = [].
Proof. by destruct s. Qed.

Lemma has_char_subseteq c (a b : pystr) :
  a ⊆ b -> has_char c b = false -> has_char c a = false.
Proof. rewrite !has_char_false. apply Forall_subseteq_list. Qed.

(** Writing the two parts of [_splitparams(url)] back gives a prefix of
    [url] that splits into the same parts. *)
Lemma splitparams_stable url :
  has_char ";" url = true ->
  let pp := splitparams url in
  let u1 := path_with_params pp.1 pp.2 in
  (exists t, url = u1 ++ t)
  /\ (if has_char ";" u1 then splitparams u1 else (u1, [])) = pp
  /\ (forall t, url = "/"%char :: t -> exists t', u1 = "/"%char :: t').
Proof.
  intros Hsemi. unfold splitparams at 1 2.
  destruct (rsplit_char "/" url) as [[a b]|] eqn:Hr.
  - apply rsplit_char_Some in Hr as [-> Hb].
    assert (Hslash : forall t, a ++ "/"%char :: b = "/"%char :: t ->
                forall x, exists t', a ++ "/"%char :: x = "/"%char :: t').
    { intros t Ht x. destruct a as [|c a]; simpl in *; [eauto|].
      injection Ht as -> _. eauto. }
    destruct (has_char ";" b) eqn:Hb'; cbn [fst snd].
    + pose proof (before_after _ _ Hb') as Hcut.
      assert (Hre : rsplit_char "/" (a ++ "/"%char :: before ";" b)
                    = Some (a, before ";" b)).
      { apply rsplit_char_sep. eapply has_char_subseteq; [apply before_subseteq | done]. }
      unfold path_with_params. destruct (after ";" b) as [|x pa] eqn:Hafter; simpl nonempty.
      * split; [exists (py ";"); rewrite Hcut at 1; by rewrite <- app_assoc|].
        split; [|intros t Ht; exact (Hslash t Ht _)].
        unfold splitparams. rewrite Hre, has_char_before.
        by destruct (has_char ";" (a ++ "/"%char :: before ";" b)).
      * assert (Hurl : (a ++ "/"%char :: before ";" b) ++ py ";" ++ x :: pa
                       = a ++ "/"%char :: b).
        { rewrite Hcut at 2. by rewrite <- app_assoc. }
        rewrite Hurl. split; [exists []; by rewrite app_nil_r|].
        split; [|intros t Ht; exact (Hslash t Ht _)].
        rewrite Hsemi. unfold splitparams.
        rewrite rsplit_char_sep by done. by rewrite Hb', Hafter.
    + unfold path_with_params. simpl nonempty.
      split; [exists []; by rewrite app_nil_r|].
      split; [|intros t Ht; exact (Hslash t Ht _)].
      rewrite Hsemi. unfold splitparams. rewrite rsplit_char_sep by done. by rewrite Hb'.
  - apply rsplit_char_None in Hr. rewrite Hsemi. cbn [fst snd].
    pose proof (before_after _ _ Hsemi) as Hcut.
    unfold path_with_params. destruct (after ";" url) as [|x pa] eqn:Hafter; simpl nonempty.
    + split; [by exists (py ";")|].
      split; [by rewrite has_char_before|].
      intros t ->. simpl in Hr. done.
    + assert (Hurl : before ";" url ++ py ";" ++ x :: pa = url) by (by symmetry).
      rewrite Hurl. split; [exists []; by rewrite app_nil_r|].
      split; [|intros t ->; simpl in Hr; done].
      rewrite Hsemi. unfold splitparams.
      assert (rsplit_char "/" url = None) as ->.
      { destruct (rsplit_char "/" url) as [[a b]|] eqn:Hr'; [|done].
        apply rsplit_char_Some in Hr' as [-> _].
        rewrite has_char_app in Hr. simpl in Hr. by rewrite orb_true_r in Hr. }
      by rewrite ?Hsemi, Hafter.
Qed.

Lemma urlparse_Ok bho url dflt r :
  urlparse bho url dflt = Ok r ->
  exists sr,
    urlsplit bho url dflt = Ok sr
    /\ scheme r = sp_scheme sr /\ netloc r = sp_netloc sr
    /\ query r = sp_query sr /\ fragment r = sp_fragment sr
    /\ (path r, params r) =
         (if str_in (sp_scheme sr) uses_params && has_char ";" (sp_path sr)
          then splitparams (sp_path sr) else (sp_path sr, [])).
Proof.
  unfold urlparse. destruct (urlsplit bho url dflt) as [sr|e]; simpl; [|done].
  intros [= <-]. exists sr. simpl. repeat split; try done.
  symmetry. apply surjective_pairing.
Qed.

Lemma web_scheme_uses_params s : web_scheme s -> str_in s uses_params = true.
Proof. by intros [-> | ->]. Qed.

Lemma web_scheme_in s : str_in s ["http"; "https"] = true <-> web_scheme s.
Proof.
  unfold str_in, web_scheme, str_eqb. simpl.
  rewrite orb_false_r, orb_true_iff, !bool_decide_eq_true. done.
Qed.

(** The parts of a parsed http(s) URL from which [urlunparse] writes the
    URL without query and fragment. *)
Lemma urlparse_web bho url dflt r :
  urlparse bho url dflt = Ok r ->
  web_scheme (scheme r) ->
  let u1 := path_with_params (path r) (params r) in
  Forall (fun c => is_unsafe_byte c = false) (netloc r)
  /\ Forall (fun c => is_unsafe_byte c = false) u1
  /\ Forall (fun c => is_netloc_delim c = false) (netloc r)
  /\ has_char "?" u1 = false
  /\ has_char "#" u1 = false
  /\ netloc_ok bho (netloc r) = true
  /\ (netloc r <> [] -> u1 = [] \/ exists t, u1 = "/"%char :: t)
  /\ (if has_char ";" u1 then splitparams u1 else (u1, [])) = (path r, params r).
Proof.
  intros (sr & Hsr & Hs & Hn & _ & _ & Hpp)%urlparse_Ok Hweb u1.
  apply urlsplit_Ok in Hsr as (Hcn & Hcp & Hdn & Hq & Hh & Hok & Hslash).
  rewrite Hn. rewrite <- Hs, (web_scheme_uses_params _ Hweb) in Hpp. simpl in Hpp.
  assert (Hu1 : (exists t, sp_path sr = u1 ++ t)
                /\ (if has_char ";" u1 then splitparams u1 else (u1, []))
                   = (path r, params r)
                /\ (forall t, sp_path sr = "/"%char :: t -> exists t', u1 = "/"%char :: t')).
  { destruct (has_char ";" (sp_path sr)) eqn:Hsemi.
    - destruct (splitparams_stable _ Hsemi) as (Hpre & Hre & Hsl).
      rewrite <- Hpp in Hpre, Hre, Hsl. done.
    - injection Hpp as Hp Hpa. subst u1. rewrite Hp, Hpa. unfold path_with_params. simpl.
      rewrite Hsemi. split; [exists []; by rewrite app_nil_r|]. split; eauto. }
  destruct Hu1 as ((t & Ht) & Hre & Hsl).
  assert (Hsub : u1 ⊆ sp_path sr).
  { rewrite Ht. intros x Hx. apply elem_of_app. by left. }
  split; [done|]. split; [by eapply Forall_subseteq_list|]. split; [done|].
  split; [by eapply has_char_subseteq|]. split; [by eapply has_char_subseteq|].
  split; [done|]. split; [|done].
  intros Hne. destruct (Hslash Hne) as [Hnil | (t' & Ht')].
  - left. rewrite Hnil in Ht. symmetry in Ht. by apply app_eq_nil in Ht as [-> _].
  - right. by eapply Hsl.
Qed.

(** * What [urlunsplit] and [urlunparse] write *)

Lemma urlunparse_stripped s n p pa :
  urlunparse (mkParse s n p pa [] []) = urlunsplit s n (path_with_params p pa) [] [].
Proof. done. Qed.

Lemma urlunparse_query_fragment r :
  urlunparse r =
  urlunparse (mkParse (scheme r) (netloc r) (path r) (params r) [] [])
  ++ query_and_fragment (query r) (fragment r).
Proof.
  unfold urlunparse, urlunsplit, query_and_fragment. simpl.
  destruct (nonempty (query r)), (nonempty (fragment r));
    by rewrite <- ?app_assoc, ?app_nil_r.
Qed.

Lemma urlunsplit_scheme_prefix s n u :
  s <> [] -> exists rest, urlunsplit s n u [] [] = s ++ py ":" ++ rest.
Proof. intros Hs. unfold urlunsplit. destruct s; [done|]. simpl. eauto. Qed.

(** [urlunsplit] without query and fragment. *)
Lemma urlunsplit_bare s n u :
  urlunsplit s n u [] [] =
  let body :=
    if nonempty n
       || (nonempty s && str_in s uses_netloc && negb (str_eqb (take 2 u) (py "//")))
    then py "//" ++ n
         ++ (if nonempty u && negb (str_eqb (take 1 u) (py "/")) then py "/" ++ u else u)
    else u in
  if nonempty s then s ++ py ":" ++ body else body.
Proof. done. Qed.

Lemma has_char_urlunsplit c s n u :
  has_char c (py "/:") = false ->
  has_char c s = false -> has_char c n = false -> has_char c u = false ->
  has_char c (urlunsplit s n u [] []) = false.
Proof.
  intros Hc Hs Hn Hu. simpl in Hc. rewrite orb_false_r in Hc.
  apply orb_false_iff in Hc as [Hslash Hcolon].
  rewrite urlunsplit_bare. cbv zeta.
  repeat match goal with
  | |- context [if ?b then _ else _] => destruct b
  end;
    rewrite ?has_char_app; simpl; rewrite ?has_char_app; simpl;
    by rewrite ?Hslash, ?Hcolon, ?Hs, ?Hn, ?Hu.
Qed.

Lemma no_delim_has_char n c :
  is_netloc_delim c = true ->
  Forall (fun x => is_netloc_delim x = false) n -> has_char c n = false.
Proof.
  intros Hc Hn. apply has_char_false. eapply Forall_impl; [exact Hn|].
  intros x Hx ->. congruence.
Qed.

(** * Parsing a written http(s) URL with a host again *)

Lemma urlsplit_absolute bho s n u1 dflt :
  web_scheme s -> n <> [] ->
  Forall (fun c => is_unsafe_byte c = false) n ->
  Forall (fun c => is_unsafe_byte c = false) u1 ->
  Forall (fun c => is_netloc_delim c = false) n ->
  has_char "?" u1 = false -> has_char "#" u1 = false ->
  netloc_ok bho n = true ->
  (u1 = [] \/ exists t, u1 = "/"%char :: t) ->
  urlsplit bho (s ++ py "://" ++ n ++ u1) dflt = Ok (mkSplit s n u1 [] []).
Proof.
  intros Hweb Hne Hcn Hcu Hdn Hq Hh Hok Hslash.
  assert (Hclean : remove_unsafe (n ++ u1) = n ++ u1).
  { apply remove_unsafe_id, Forall_app. done. }
  unfold urlsplit.
  assert (Hurl1 : remove_unsafe (lstrip is_c0_or_space (s ++ py "://" ++ n ++ u1))
                  = s ++ ":"%char :: py "//" ++ n ++ u1).
  { unfold remove_unsafe in *.
    destruct Hweb as [-> | ->]; simpl; rewrite ?filter_cons; simpl; by rewrite Hclean. }
  rewrite Hurl1. clear Hurl1 Hclean.
  assert (Hcolon : has_char ":" s = false) by (by destruct Hweb as [-> | ->]).
  rewrite (before_sep _ _ _ Hcolon), (after_sep _ _ _ Hcolon).
  assert (Hsch : has_char ":" (s ++ ":"%char :: py "//" ++ n ++ u1)
                 && nonempty s
                 && match s ++ ":"%char :: py "//" ++ n ++ u1 with
                    | c :: _ => is_ascii_alpha c | [] => false end
                 && forallb is_scheme_char s = true).
  { rewrite has_char_app. simpl has_char. rewrite orb_true_r.
    by destruct Hweb as [-> | ->]. }
  rewrite Hsch. clear Hsch.
  assert (Hlow : str_lower s = s) by (by destruct Hweb as [-> | ->]).
  rewrite Hlow.
  change (str_eqb (take 2 (py "//" ++ n ++ u1)) (py "//")) with true. cbv iota.
  change (drop 2 (py "//" ++ n ++ u1)) with (n ++ u1).
  assert (Hu1 : take_until is_netloc_delim u1 = [] /\ drop_until is_netloc_delim u1 = u1).
  { destruct Hslash as [-> | [t ->]]; done. }
  rewrite take_until_app, drop_until_app by done.
  destruct Hu1 as [-> ->]. rewrite app_nil_r, Hok.
  rewrite (after_absent _ _ Hh), (before_absent _ _ Hh).
  by rewrite (after_absent _ _ Hq), (before_absent _ _ Hq).
Qed.

Lemma urlparse_absolute bho s n p pa dflt :
  web_scheme s -> n <> [] ->
  let u1 := path_with_params p pa in
  Forall (fun c => is_unsafe_byte c = false) n ->
  Forall (fun c => is_unsafe_byte c = false) u1 ->
  Forall (fun c => is_netloc_delim c = false) n ->
  has_char "?" u1 = false -> has_char "#" u1 = false ->
  netloc_ok bho n = true ->
  (u1 = [] \/ exists t, u1 = "/"%char :: t) ->
  (if has_char ";" u1 then splitparams u1 else (u1, [])) = (p, pa) ->
  urlparse bho (s ++ py "://" ++ n ++ u1) dflt = Ok (mkParse s n p pa [] []).
Proof.
  intros Hweb Hne u1 Hcn Hcu Hdn Hq Hh Hok Hslash Hre.
  unfold urlparse. rewrite urlsplit_absolute by done.
  cbn [bind sp_scheme sp_netloc sp_path sp_query sp_fragment].
  rewrite (web_scheme_uses_params _ Hweb). cbn [andb]. fold u1. by rewrite Hre.
Qed.

Lemma urlunsplit_absolute s n u1 :
  web_scheme s -> n <> [] -> (u1 = [] \/ exists t, u1 = "/"%char :: t) ->
  urlunsplit s n u1 [] [] = s ++ py "://" ++ n ++ u1.
Proof.
  intros Hweb Hne Hslash. rewrite urlunsplit_bare. cbv zeta.
  apply nonempty_true in Hne. rewrite Hne. cbn [orb].
  assert (nonempty u1 && negb (str_eqb (take 1 u1) (py "/")) = false) as ->.
  { destruct Hslash as [-> | [t ->]]; done. }
  by destruct Hweb as [-> | ->].
Qed.

(** * [normalize_url] *)

Lemma normalize_url_nonempty bho href base_url :
  href <> [] ->
  normalize_url bho href base_url =
  (joined <- urljoin bho base_url href ;;
   parsed <- urlparse bho joined [] ;;
   if negb (str_in (scheme parsed) ["http"; "https"]) then Ok []
   else Ok (urlunparse (mkParse (scheme parsed) (netloc parsed) (path parsed)
                          (params parsed) [] []))).
Proof. intros Hne. unfold normalize_url. by destruct href. Qed.

(** The URL written for a parsed http(s) URL with a host, and how it
    parses again. *)
Lemma stripped_url_absolute bho url dflt r :
  urlparse bho url dflt = Ok r ->
  web_scheme (scheme r) -> netloc r <> [] ->
  let written := urlunparse (mkParse (scheme r) (netloc r) (path r) (params r) [] []) in
  forall dflt',
    urlparse bho written dflt'
    = Ok (mkParse (scheme r) (netloc r) (path r) (params r) [] []).
Proof.
  intros Hr Hweb Hne written dflt'.
  destruct (urlparse_web _ _ _ _ Hr Hweb) as (Hcn & Hcu & Hdn & Hq & Hh & Hok & Hsl & Hre).
  subst written. rewrite urlunparse_stripped, urlunsplit_absolute by auto.
  apply urlparse_absolute; auto.
Qed.

Lemma urljoin_base_parsed bho b u j :
  urljoin bho b u = Ok j -> b <> [] -> u <> [] ->
  exists bp, urlparse bho b [] = Ok bp.
Proof.
  unfold urljoin. intros H Hb%nonempty_true Hu%nonempty_true.
  rewrite Hb, Hu in H. cbn [negb] in H.
  destruct (urlparse bho b []); [eauto | done].
Qed.

(** An http(s) URL with a host, written as the library writes it, is not
    changed by resolving it against a base URL. *)
Lemma urljoin_with_host bho b url r :
  url <> [] ->
  (forall dflt, urlparse bho url dflt = Ok r) ->
  web_scheme (scheme r) -> netloc r <> [] ->
  urlunparse r = url ->
  (b = [] \/ exists bp, urlparse bho b [] = Ok bp) ->
  urljoin bho b url = Ok url.
Proof.
  intros Hne%nonempty_true Hparse Hweb Hhost%nonempty_true Hwritten Hb.
  unfold urljoin. destruct Hb as [-> | [bp Hbp]]; [done|].
  destruct (nonempty b); cbn [negb]; [|done].
  rewrite Hne. cbn [negb]. rewrite Hbp. cbn [bind]. rewrite Hparse. cbn [bind].
  destruct (negb (str_eqb (scheme r) (scheme bp))
            || negb (str_in (scheme r) uses_relative)); [done|].
  assert (str_in (scheme r) uses_netloc = true) as ->
    by (by destruct Hweb as [-> | ->]).
  rewrite Hhost. cbn [andb]. by rewrite Hwritten.
Qed.

(** C7 (as stated, fails): for the empty href the resolved URL is the base
    URL, an https URL here, and [normalize_url] returns the empty string.
    For an href with an unbalanced bracket in its host the library raises
    [ValueError], and so does [normalize_url]. *)
Lemma normalize_url_empty_href :
  urljoin no_brackets (py "https://example.com/usa/") []
    = Ok (py "https://example.com/usa/")
  /\ (exists parsed,
        urlparse no_brackets (py "https://example.com/usa/") [] = Ok parsed
        /\ scheme parsed = py "https"
        /\ urlunparse (mkParse (scheme parsed) (netloc parsed) (path parsed)
                         (params parsed) [] [])
           = py "https://example.com/usa/")
  /\ normalize_url no_brackets [] (py "https://example.com/usa/") = Ok []
  /\ normalize_url no_brackets [] (py "https://example.com/usa/")
     <> Ok (py "https://example.com/usa/")
  /\ normalize_url no_brackets (py "http://[") (py "https://example.com/usa/")
     = Raise ValueError.
Proof.
  split; [done|]. split; [eexists; split; [vm_compute; reflexivity | done]|].
  repeat split; done.
Qed.

(** C7 (amended): for the empty href [normalize_url] returns the empty
    string.  For a non-empty href that the URL library resolves against the
    base and parses, it returns the empty string when the scheme of the
    resolved URL is not http or https; otherwise it returns the resolved URL
    as the library writes it, without its query and fragment: the result
    starts with the scheme, holds no ['?'] and no ['#'], and the resolved URL
    is written as the result followed by its query and fragment. *)
Theorem normalize_url_strips_query_and_fragment
    (bracketed_host_ok : pystr -> bool) (base_url : pystr) :
  normalize_url bracketed_host_ok [] base_url = Ok []
  /\ forall href joined parsed,
       href <> [] ->
       urljoin bracketed_host_ok base_url href = Ok joined ->
       urlparse bracketed_host_ok joined [] = Ok parsed ->
       (~ web_scheme (scheme parsed) ->
        normalize_url bracketed_host_ok href base_url = Ok [])
       /\ (web_scheme (scheme parsed) ->
           exists result,
             normalize_url bracketed_host_ok href base_url = Ok result
             /\ (exists rest, result = scheme parsed ++ py ":" ++ rest)
             /\ has_char "?" result = false
             /\ has_char "#" result = false
             /\ urlunparse parsed
                = result ++ query_and_fragment (query parsed) (fragment parsed)).
Proof.
  split; [done|]. intros href joined parsed Hne Hjoin Hparse.
  rewrite normalize_url_nonempty, Hjoin by done. cbn [bind]. rewrite Hparse. cbn [bind].
  split.
  - intros Hweb. rewrite <- web_scheme_in in Hweb. by destruct (str_in _ _).
  - intros Hweb. pose proof Hweb as Hin. rewrite <- web_scheme_in in Hin.
    rewrite Hin. cbn [negb]. eexists. split; [done|].
    destruct (urlparse_web _ _ _ _ Hparse Hweb)
      as (Hcn & Hcu & Hdn & Hq & Hh & Hok & Hsl & Hre).
    split; [|split; [|split]].
    + rewrite urlunparse_stripped. apply urlunsplit_scheme_prefix.
      by destruct Hweb as [-> | ->].
    + rewrite urlunparse_stripped. apply has_char_urlunsplit; try done.
      * by destruct Hweb as [-> | ->].
      * by apply no_delim_has_char.
    + rewrite urlunparse_stripped. apply has_char_urlunsplit; try done.
      * by destruct Hweb as [-> | ->].
      * by apply no_delim_has_char.
    + apply urlunparse_query_fragment.
Qed.

Lemma normalize_url_strips_query_and_fragment_witness :
  py "/usa/texas/?page=2#top" <> []
  /\ normalize_url no_brackets (py "/usa/texas/?page=2#top") (py "https://example.com/usa/")
     = Ok (py "https://example.com/usa/texas/").
Proof.
  split; [done|].
  destruct (normalize_url_strips_query_and_fragment no_brackets (py "https://example.com/usa/"))
    as [_ H].
  destruct (H (py "/usa/texas/?page=2#top") (py "https://example.com/usa/texas/?page=2#top")
              (mkParse (py "https") (py "example.com") (py "/usa/texas/") []
                 (py "page=2") (py "top")))
    as [_ Hweb]; [done | vm_compute; reflexivity | vm_compute; reflexivity |].
  destruct Hweb as (result & Hresult & _); [by right|].
  rewrite Hresult. vm_compute in Hresult. by injection Hresult as <-.
Defined.

(** C6 (as stated, fails): against a base URL without a host, a second
    normalization resolves the dot segments that the first one kept. *)
Lemma normalize_url_not_idempotent :
  normalize_url no_brackets (py "?q") (py "http:/a/../b") = Ok (py "http:///a/../b")
  /\ normalize_url no_brackets (py "http:///a/../b") (py "http:/a/../b")
     = Ok (py "http:///b").
Proof. split; vm_compute; reflexivity. Qed.

(** The same happens against an ordinary base URL for an href of another
    scheme whose path starts with slashes: as [urlunsplit] writes it, the
    path of the first result reads as a host in the second. *)
Example normalize_url_slashes_not_idempotent :
  normalize_url no_brackets (py "http://////x") (py "https://example.com/usa/")
    = Ok (py "http:////x")
  /\ normalize_url no_brackets (py "http:////x") (py "https://example.com/usa/")
     = Ok (py "http://x").
Proof. split; vm_compute; reflexivity. Qed.

(** C6 (amended): when the URL that the href resolves to has a network
    location (a host), normalizing the result of [normalize_url] again
    against the same base URL returns it unchanged. *)
Theorem normalize_url_idempotent_with_host
    (bracketed_host_ok : pystr -> bool) (u b joined : pystr) (parsed : ParseResult) :
  urljoin bracketed_host_ok b u = Ok joined ->
  urlparse bracketed_host_ok joined [] = Ok parsed ->
  netloc parsed <> [] ->
  (x <- normalize_url bracketed_host_ok u b ;; normalize_url bracketed_host_ok x b)
  = normalize_url bracketed_host_ok u b.
Proof.
  intros Hjoin Hparse Hhost.
  destruct (decide (u = [])) as [-> | Hu]; [done|].
  rewrite normalize_url_nonempty, Hjoin by done. cbn [bind]. rewrite Hparse. cbn [bind].
  destruct (str_in (scheme parsed) ["http"; "https"]) eqn:Hin; cbn [negb bind]; [|done].
  apply web_scheme_in in Hin as Hweb.
  pose proof (stripped_url_absolute _ _ _ _ Hparse Hweb Hhost) as Hre. cbv zeta in Hre.
  set (stripped := mkParse (scheme parsed) (netloc parsed) (path parsed) (params parsed) [] [])
    in *.
  assert (Hne : urlunparse stripped <> []).
  { destruct (urlunsplit_scheme_prefix (scheme parsed) (netloc parsed)
                (path_with_params (path parsed) (params parsed))) as [rest Hrest].
    - by destruct Hweb as [-> | ->].
    - unfold stripped. rewrite urlunparse_stripped, Hrest.
      by destruct Hweb as [-> | ->]. }
  assert (Hagain : urljoin bracketed_host_ok b (urlunparse stripped)
                   = Ok (urlunparse stripped)).
  { apply (urljoin_with_host _ _ _ stripped); try done.
    destruct (decide (b = [])) as [-> | Hb]; [by left | right].
    by eapply urljoin_base_parsed. }
  rewrite normalize_url_nonempty, Hagain by done. cbn [bind]. rewrite Hre.
  subst stripped. cbn [bind scheme netloc path params]. by rewrite Hin.
Qed.

Lemma normalize_url_idempotent_with_host_witness :
  normalize_url no_brackets (py "/usa/texas/?page=2#top") (py "https://example.com/usa/")
    = Ok (py "https://example.com/usa/texas/")
  /\ normalize_url no_brackets (py "https://example.com/usa/texas/")
       (py "https://example.com/usa/")
     = Ok (py "https://example.com/usa/texas/").
Proof.
  assert (H1 : normalize_url no_brackets (py "/usa/texas/?page=2#top")
                 (py "https://example.com/usa/")
               = Ok (py "https://example.com/usa/texas/")) by (vm_compute; reflexivity).
  split; [exact H1|].
  pose proof (normalize_url_idempotent_with_host no_brackets
                (py "/usa/texas/?page=2#top") (py "https://example.com/usa/")
                (py "https://example.com/usa/texas/?page=2#top")
                (mkParse (py "https") (py "example.com") (py "/usa/texas/") []
                   (py "page=2") (py "top"))) as H.
  rewrite H1 in H. cbn [bind] in H. apply H.
  - vm_compute; reflexivity.
  - vm_compute; reflexivity.
  - done.
Defined.

(** * [classify_location_url] *)

(** C5: with base host example.com, a URL of that host under [/usa/] is a
    "state" URL (region level) when exactly one path segment follows the
    marker and a "city" URL (locality level) when two or more follow; a URL of
    another host, or whose first path segment is not the marker up to case,
    is unclassified ([None]). *)
Theorem classify_location_url_boundaries (bracketed_host_ok : pystr -> bool) :
  classify_location_url bracketed_host_ok
    (py "https://example.com/usa/texas/") (py "example.com") = Ok (Some (py "state"))
  /\ classify_location_url bracketed_host_ok
       (py "https://example.com/usa/texas/austin/") (py "example.com")
     = Ok (Some (py "city"))
  /\ classify_location_url bracketed_host_ok
       (py "https://example.com/europe/") (py "example.com") = Ok None
  /\ classify_location_url bracketed_host_ok
       (py "https://other.com/usa/texas/") (py "example.com") = Ok None
  /\ forall url base_netloc parsed,
       urlparse bracketed_host_ok url [] = Ok parsed ->
       let segments := filter nonempty (split_on "/" (path parsed)) in
       (netloc parsed <> base_netloc ->
        classify_location_url bracketed_host_ok url base_netloc = Ok None)
       /\ (segments = [] ->
           classify_location_url bracketed_host_ok url base_netloc = Ok None)
       /\ (forall marker further,
             segments = marker :: further -> str_lower marker <> py "usa" ->
             classify_location_url bracketed_host_ok url base_netloc = Ok None)
       /\ (forall marker further,
             netloc parsed = base_netloc ->
             segments = marker :: further -> str_lower marker = py "usa" ->
             (length further = 1 ->
              classify_location_url bracketed_host_ok url base_netloc
              = Ok (Some (py "state")))
             /\ (2 <= length further ->
                 classify_location_url bracketed_host_ok url base_netloc
                 = Ok (Some (py "city")))).
Proof.
  do 4 (split; [vm_compute; reflexivity|]).
  intros url base_netloc parsed Hparsed segments.
  unfold classify_location_url. rewrite Hparsed. cbn [bind]. fold segments.
  unfold str_eqb. split; [|split; [|split]].
  - intros Hnet. by rewrite bool_decide_eq_false_2.
  - intros ->. by destruct (negb _).
  - intros marker further -> Hmarker. destruct (negb (bool_decide (netloc parsed = _))); [done|].
    by rewrite bool_decide_eq_false_2.
  - intros marker further Hnet -> Hmarker.
    rewrite !bool_decide_eq_true_2 by done. cbn [negb length].
    split; intros Hlen.
    + by rewrite Hlen.
    + destruct further as [|x [|y further]]; simpl in Hlen; [lia | lia | done].
Qed.

(** * The heuristic extractor *)

Lemma link_step_elem base ds dc acc link r :
  r ∈ (link_step base ds dc acc link).2 ->
  r ∈ acc.2
  \/ (re_search DATA_CENTER_PATH_RE (href link) = true
      /\ name r = normalize_whitespace (anchor_text link)
      /\ url r = (if startswith (py "/") (href link)
                  then rstrip (char_eqb "/") base ++ href link
                  else href link)
      /\ city r = dc /\ state r = ds).
Proof.
  unfold link_step.
  destruct (re_search DATA_CENTER_PATH_RE (href link)) eqn:Hre; cbn [negb]; [|by left].
  destruct (nonempty (normalize_whitespace (anchor_text link))); cbn [negb]; [|by left].
  case_bool_decide; [by left|]. cbn [snd].
  intros [Hr | ->%list_elem_of_singleton]%elem_of_app; [by left | by right].
Qed.

(** The url of every record of the heuristic extractor is the href of an
    anchor that matches the facility pattern, with the page URL (less its
    trailing slashes) put in front when the href starts with a slash. *)
Lemma extract_from_links_elem soup base ds dc r :
  r ∈ extract_from_links soup base ds dc ->
  exists link,
    link ∈ anchors soup
    /\ re_search DATA_CENTER_PATH_RE (href link) = true
    /\ name r = normalize_whitespace (anchor_text link)
    /\ url r = (if startswith (py "/") (href link)
                then rstrip (char_eqb "/") base ++ href link
                else href link)
    /\ city r = dc /\ state r = ds.
Proof.
  unfold extract_from_links.
  induction (anchors soup) as [|link links IH] using rev_ind.
  - by intros ?%elem_of_nil.
  - rewrite fold_left_app. cbn [fold_left].
    intros [Hr | Hr]%link_step_elem.
    + destruct (IH Hr) as (l & Hl & H). exists l. split; [|done].
      apply elem_of_app. by left.
    + exists link. split; [|done]. apply elem_of_app. right. by left.
Qed.

(** C8 (the code at the failing inputs): for an href that starts with a
    slash the record's url is the page URL followed by the href, not the href
    resolved against the page URL; an href that does not start with a slash
    is stored as it is. *)
Lemma extract_from_links_does_not_resolve :
  extract_from_links
    (mkSoup [] [mkAnchor (py "/data-centers/acme/") (py "Acme DC") None])
    (py "https://example.com/usa/texas/") [] []
  = [mkDataCenter (py "Acme DC") (py "https://example.com/usa/texas/data-centers/acme/")
       [] [] [] []]
  /\ urljoin no_brackets (py "https://example.com/usa/texas/") (py "/data-centers/acme/")
     = Ok (py "https://example.com/data-centers/acme/")
  /\ extract_from_links
       (mkSoup [] [mkAnchor (py "../data-centers/acme/") (py "Acme DC") None])
       (py "https://example.com/usa/texas/") [] []
     = [mkDataCenter (py "Acme DC") (py "../data-centers/acme/") [] [] [] []]
  /\ urljoin no_brackets (py "https://example.com/usa/texas/") (py "../data-centers/acme/")
     = Ok (py "https://example.com/usa/data-centers/acme/").
Proof. repeat split; vm_compute; reflexivity. Qed.

(** * The crawl *)

Lemma fetch_trace_app a b : fetch_trace (a ++ b) = fetch_trace a ++ fetch_trace b.
Proof. apply flat_map_app. Qed.

Lemma enqueue_keeps (v : gset pystr) q u :
  NoDup q -> (forall x, x ∈ q -> x ∉ v) ->
  NoDup (enqueue v q u) /\ (forall x, x ∈ enqueue v q u -> x ∉ v).
Proof.
  intros Hq Hv. unfold enqueue.
  destruct (bool_decide (u ∉ v)) eqn:Hu, (bool_decide (u ∉ q)) eqn:Hu'; simpl; try done.
  apply bool_decide_eq_true in Hu, Hu'. split.
  - apply NoDup_app. split; [done|]. split; [|apply NoDup_singleton].
    intros x Hx ->%list_elem_of_singleton. done.
  - intros x [Hx | ->%list_elem_of_singleton]%elem_of_app; auto.
Qed.

Lemma enqueue_all_keeps (v : gset pystr) links q :
  NoDup q -> (forall x, x ∈ q -> x ∉ v) ->
  NoDup (fold_left (enqueue v) links q)
  /\ (forall x, x ∈ fold_left (enqueue v) links q -> x ∉ v).
Proof.
  revert q. induction links as [|u links IH]; intros q Hq Hv; simpl; [done|].
  destruct (enqueue_keeps v q u Hq Hv). by apply IH.
Qed.

(** A URL that is visited or queued is not enqueued. *)
Lemma enqueue_known (v : gset pystr) q u :
  u ∈ v \/ u ∈ q -> enqueue v q u = q.
Proof.
  intros Hu. unfold enqueue.
  destruct (bool_decide (u ∉ v)) eqn:Hv, (bool_decide (u ∉ q)) eqn:Hq; simpl; try done.
  apply bool_decide_eq_true in Hv, Hq. tauto.
Qed.

Section Crawl.

Variable bracketed_host_ok : pystr -> bool.
Variable title : pystr -> pystr.
Variable json_loads : pystr -> option json.
Variable parse_html : pystr -> Soup.
Variable set_order : list pystr -> list pystr.
Variable World : Type.
Variable fetch_html : World -> pystr -> World * result pystr.
Variable start_url : pystr.
Variable dump_html : option pystr.

Local Abbreviation pass :=
  (iteration bracketed_host_ok title json_loads parse_html set_order fetch_html
     start_url dump_html).
Local Abbreviation loop fuel :=
  (crawl_loop bracketed_host_ok title json_loads parse_html set_order fetch_html
     fuel start_url dump_html).
Local Abbreviation page :=
  (page_centers json_loads).

Lemma page_centers_made soup url ds dc p made :
  page soup url ds dc = Ok (p, made) -> fetch_trace made = [].
Proof.
  unfold page_centers.
  destruct (extract_from_itemlist _ ds dc) as [[|r rs]|e]; simpl; [| |done];
    by intros [= <- <-].
Qed.

(** The state after a fetch of the head of the queue keeps the invariant,
    whatever else the pass did that was no fetch. *)
Lemma crawl_inv_fetched (st : Crawl World) url rest q' cs' acc (w : World) err fs :
  crawl_inv st -> queue st = url :: rest -> url ∉ visited st ->
  fetch_trace cs' = fetch_trace (calls st) ++ [url] ->
  NoDup q' -> (forall x, x ∈ q' -> x ∉ {[url]} ∪ visited st) ->
  crawl_inv (mkCrawl q' ({[url]} ∪ visited st) acc w err fs cs').
Proof.
  intros (Hnd & Hiff & Hq & Hqv) Hqueue Hfresh Hcs Hq' Hqv'.
  unfold crawl_inv. simpl. rewrite Hcs. split; [|split; [|done]].
  - apply NoDup_app. split; [done|]. split; [|apply NoDup_singleton].
    intros x Hx ->%list_elem_of_singleton. apply Hfresh. by apply Hiff.
  - intros u. rewrite elem_of_app, list_elem_of_singleton, Hiff. set_solver.
Qed.

Lemma crawl_inv_rest (st : Crawl World) url rest :
  crawl_inv st -> queue st = url :: rest ->
  NoDup rest /\ (forall x, x ∈ rest -> x ∉ {[url]} ∪ visited st).
Proof.
  intros (_ & _ & Hq & Hqv) Hqueue. rewrite Hqueue in Hq, Hqv.
  apply NoDup_cons in Hq as [Hurl Hrest]. split; [done|].
  intros x Hx. specialize (Hqv x (list_elem_of_further _ _ _ Hx)). set_solver.
Qed.

Lemma iteration_inv (st : Crawl World) :
  crawl_inv st -> crawl_inv (outcome_state (pass st)).
Proof.
  intros Hinv. unfold iteration.
  destruct (queue st) as [|url rest] eqn:Hqueue; [done|].
  destruct (crawl_inv_rest _ _ _ Hinv Hqueue) as [Hrest Hrestv].
  case_bool_decide as Hvis.
  { destruct Hinv as (Hnd & Hiff & Hq & Hqv). unfold crawl_inv. simpl.
    rewrite Hqueue in Hq, Hqv. apply NoDup_cons in Hq as [_ Hq].
    repeat split; try done; try apply Hiff.
    intros u Hu. apply Hqv. by right. }
  assert (Hone : fetch_trace (calls st ++ [CallFetch url])
                 = fetch_trace (calls st) ++ [url]) by by rewrite fetch_trace_app.
  destruct (fetch_html (world st) url) as [w [html|e]]; simpl.
  - destruct (extract_location_from_url _ _ url) as [[ds dc]|e]; simpl;
      [|by eapply crawl_inv_fetched].
    destruct (page_centers _ _ url ds dc) as [[p made]|e] eqn:Hpage; simpl.
    + apply page_centers_made in Hpage.
      assert (Hcs : fetch_trace ((calls st ++ [CallFetch url]) ++ made)
                    = fetch_trace (calls st) ++ [url]).
      { rewrite fetch_trace_app, Hone, Hpage. apply app_nil_r. }
      destruct (extract_location_links _ _ url) as [links|e]; simpl;
        [|by eapply crawl_inv_fetched].
      destruct (enqueue_all_keeps ({[url]} ∪ visited st) (set_order links) rest);
        [done..|].
      by eapply crawl_inv_fetched.
    + eapply crawl_inv_fetched; try done.
      rewrite fetch_trace_app, Hone. apply app_nil_r.
  - destruct (caught e); simpl; by eapply crawl_inv_fetched.
Qed.

Lemma crawl_loop_inv fuel (st : Crawl World) :
  crawl_inv st -> crawl_inv (outcome_state (loop fuel st)).
Proof.
  revert st. induction fuel as [|fuel IH]; intros st Hinv; [done|]. simpl.
  pose proof (iteration_inv st Hinv) as Hstep.
  destruct (pass st) as [st'| |]; [by apply IH | done..].
Qed.

(** C2: in every run of [scrape_centers], for every fetcher, parser and
    set order and after any number of passes, no URL occurs twice in the
    fetch trace; the fetched URLs are the visited ones; the queue holds no
    URL twice and no visited URL.  A URL that is visited or queued is not
    enqueued, and a dequeued URL that is visited is skipped: the pass only
    drops it from the queue, with no fetch. *)
Theorem scrape_centers_fetches_once (fuel : nat) (w : World) :
  let st :=
    outcome_state
      (scrape_centers bracketed_host_ok title json_loads parse_html set_order
         fetch_html fuel start_url dump_html w) in
  NoDup (fetch_trace (calls st))
  /\ (forall u, u ∈ fetch_trace (calls st) <-> u ∈ visited st)
  /\ NoDup (queue st)
  /\ (forall u, u ∈ queue st -> u ∉ visited st)
  /\ (forall (v : gset pystr) q u, u ∈ v \/ u ∈ q -> enqueue v q u = q)
  /\ (forall (s : Crawl World) u rest,
        queue s = u :: rest -> u ∈ visited s ->
        pass s = Running (mkCrawl rest (visited s) (centers s) (world s)
                            (stderr s) (files s) (calls s))).
Proof.
  intros st.
  assert (Hinv : crawl_inv st).
  { subst st. unfold scrape_centers.
    destruct (normalize_url _ start_url start_url) as [seed|e]; simpl.
    - apply crawl_loop_inv. unfold crawl_inv. simpl.
      repeat split; try done; try apply NoDup_nil_2; try apply NoDup_singleton;
        set_solver.
    - unfold crawl_inv. simpl. repeat split; try done; try apply NoDup_nil_2; set_solver. }
  destruct Hinv as (H1 & H2 & H3 & H4).
  do 4 (split; [done|]). split; [apply enqueue_known|].
  intros s u rest Hq Hu. unfold iteration. rewrite Hq.
  by rewrite bool_decide_eq_true_2.
Qed.

Lemma crawl_calls_fetch_only cs acc url :
  crawl_calls bracketed_host_ok title json_loads cs acc ->
  crawl_calls bracketed_host_ok title json_loads (cs ++ [CallFetch url]) acc.
Proof.
  intros H. rewrite <- (app_nil_r acc). apply crawl_calls_page; [done|].
  apply page_unread.
Qed.

Lemma iteration_calls (st : Crawl World) :
  crawl_calls bracketed_host_ok title json_loads (calls st) (centers st) ->
  crawl_calls bracketed_host_ok title json_loads
    (calls (outcome_state (pass st))) (centers (outcome_state (pass st))).
Proof.
  intros Hcalls. unfold iteration.
  destruct (queue st) as [|url rest]; [done|].
  case_bool_decide; [done|].
  destruct (fetch_html (world st) url) as [w [html|e]]; simpl.
  - destruct (extract_location_from_url _ _ url) as [[ds dc]|e] eqn:Hloc; simpl;
      [|by apply crawl_calls_fetch_only].
    assert (Hpage : forall made p,
              page_calls bracketed_host_ok title json_loads (CallFetch url :: made) p ->
              crawl_calls bracketed_host_ok title json_loads
                ((calls st ++ [CallFetch url]) ++ made) (centers st ++ p)).
    { intros made p Hp. rewrite <- app_assoc. by apply crawl_calls_page. }
    unfold page_centers.
    destruct (extract_from_itemlist _ ds dc) as [[|r rs]|e] eqn:Hstructured; simpl.
    + destruct (extract_location_links _ _ url); simpl;
        apply Hpage; by apply page_heuristic.
    + destruct (extract_location_links _ _ url); simpl;
        apply Hpage; by apply page_structured.
    + rewrite <- (app_nil_r (centers st)). apply Hpage. by eapply page_raised.
  - destruct (caught e); simpl; by apply crawl_calls_fetch_only.
Qed.

Lemma crawl_loop_calls fuel (st : Crawl World) :
  crawl_calls bracketed_host_ok title json_loads (calls st) (centers st) ->
  crawl_calls bracketed_host_ok title json_loads
    (calls (outcome_state (loop fuel st))) (centers (outcome_state (loop fuel st))).
Proof.
  revert st. induction fuel as [|fuel IH]; intros st Hcalls; [done|]. simpl.
  pose proof (iteration_calls st Hcalls) as Hstep.
  destruct (pass st) as [st'| |]; [by apply IH | done..].
Qed.

(** Every call of the heuristic extractor comes right after a call of the
    structured extractor on the same page and defaults that returned the
    empty list. *)
Lemma crawl_calls_links cs acc soup base ds dc :
  crawl_calls bracketed_host_ok title json_loads cs acc ->
  CallLinks soup base ds dc ∈ cs ->
  extract_location_from_url bracketed_host_ok title base = Ok (ds, dc)
  /\ extract_from_itemlist (parse_json_ld json_loads soup) ds dc = Ok []
  /\ CallItemlist (parse_json_ld json_loads soup) ds dc ∈ cs.
Proof.
  induction 1 as [|cs acc made p Hcs IH Hpage]; intros Hin.
  - by apply elem_of_nil in Hin.
  - apply elem_of_app in Hin as [Hin | Hin].
    + destruct (IH Hin) as (? & ? & ?). repeat split; try done.
      apply elem_of_app. by left.
    + destruct Hpage as [u | u sp s c r rs Hl He | u sp s c Hl He | u sp s c e Hl He];
        set_unfold in Hin; destruct_or?; try done.
      simplify_eq. repeat split; try done. set_solver.
Qed.

(** Every call of the structured extractor that returned the empty list
    is followed by a call of the heuristic extractor with its defaults. *)
Lemma crawl_calls_itemlist cs acc items ds dc :
  crawl_calls bracketed_host_ok title json_loads cs acc ->
  CallItemlist items ds dc ∈ cs ->
  extract_from_itemlist items ds dc = Ok [] ->
  exists soup base,
    items = parse_json_ld json_loads soup /\ CallLinks soup base ds dc ∈ cs.
Proof.
  induction 1 as [|cs acc made p Hcs IH Hpage]; intros Hin Hempty.
  - by apply elem_of_nil in Hin.
  - apply elem_of_app in Hin as [Hin | Hin].
    + destruct (IH Hin Hempty) as (soup & base & ? & ?). exists soup, base.
      split; [done|]. apply elem_of_app. by left.
    + destruct Hpage as [u | u sp s c r rs Hl He | u sp s c Hl He | u sp s c e Hl He];
        set_unfold in Hin; destruct_or?; try done;
        simplify_eq; try congruence.
      exists sp, u. split; [done|]. set_solver.
Qed.

(** C3: in every run of [scrape_centers] the calls are made page by page:
    after the fetch of a URL the structured extractor runs with the
    defaults read off that URL, and the heuristic extractor runs, on the
    same page and defaults, if and only if the structured extractor
    returned the empty list; the page contributes the structured records
    when there are any and the heuristic records otherwise. *)
Theorem scrape_centers_extractor_fallback (fuel : nat) (w : World) :
  let st :=
    outcome_state
      (scrape_centers bracketed_host_ok title json_loads parse_html set_order
         fetch_html fuel start_url dump_html w) in
  crawl_calls bracketed_host_ok title json_loads (calls st) (centers st)
  /\ (forall soup base ds dc,
        CallLinks soup base ds dc ∈ calls st ->
        extract_location_from_url bracketed_host_ok title base = Ok (ds, dc)
        /\ extract_from_itemlist (parse_json_ld json_loads soup) ds dc = Ok []
        /\ CallItemlist (parse_json_ld json_loads soup) ds dc ∈ calls st)
  /\ (forall items ds dc,
        CallItemlist items ds dc ∈ calls st ->
        extract_from_itemlist items ds dc = Ok [] ->
        exists soup base,
          items = parse_json_ld json_loads soup
          /\ CallLinks soup base ds dc ∈ calls st).
Proof.
  intros st.
  assert (Hcalls : crawl_calls bracketed_host_ok title json_loads (calls st) (centers st)).
  { subst st. unfold scrape_centers.
    destruct (normalize_url _ start_url start_url) as [seed|e]; simpl.
    - apply crawl_loop_calls. apply crawl_calls_nil.
    - apply crawl_calls_nil. }
  split; [done|]. split.
  - intros soup base ds dc. by eapply crawl_calls_links.
  - intros items ds dc. by eapply crawl_calls_itemlist.
Qed.

Lemma crawl_loop_more n k (st : Crawl World) unique final :
  loop n st = Returned unique final -> loop (n + k) st = Returned unique final.
Proof.
  revert st. induction n as [|n IH]; intros st H; simpl in *; [done|].
  destruct (pass st) as [st'| |]; [by apply IH | done..].
Qed.

(** A fetch that raises [HTTPError] or [URLError] ends the pass: the
    error is printed and the loop goes on with the rest of the queue. *)
Lemma iteration_fetch_failure (st : Crawl World) url rest w e exc :
  queue st = url :: rest -> url ∉ visited st ->
  fetch_html (world st) url = (w, Raise e) ->
  e = HTTPError exc \/ e = URLError exc ->
  pass st =
  Running (mkCrawl rest ({[url]} ∪ visited st) (centers st) w
             (stderr st ++ [py "Failed to fetch " ++ url ++ py ": " ++ exc])
             (files st) (calls st ++ [CallFetch url])).
Proof.
  intros Hq Hfresh Hfetch He. unfold iteration. rewrite Hq.
  rewrite bool_decide_eq_false_2 by done. rewrite Hfetch. simpl.
  by destruct He as [-> | ->].
Qed.

(** A fetch that raises an exception of another class ends the crawl:
    the exception leaves [scrape_centers]. *)
Lemma iteration_fetch_raises (st : Crawl World) url rest w e :
  queue st = url :: rest -> url ∉ visited st ->
  fetch_html (world st) url = (w, Raise e) ->
  caught e = None ->
  pass st =
  Raised e (mkCrawl rest ({[url]} ∪ visited st) (centers st) w (stderr st) (files st)
              (calls st ++ [CallFetch url])).
Proof.
  intros Hq Hfresh Hfetch He. unfold iteration. rewrite Hq.
  rewrite bool_decide_eq_false_2 by done. rewrite Hfetch. simpl.
  by rewrite He.
Qed.

End Crawl.

(** The crawl of the sample site within four passes, for the two orders
    in which the loop over the links of the seed page can visit the two
    region pages. *)
Lemma site_crawl_4_first_added :
  match site_crawl first_added 4 with
  | Returned unique st =>
      (unique, stderr st, fetch_trace (calls st))
      = ([acme_center],
         [py "Failed to fetch https://example.com/usa/texas/: timed out"],
         [seed_url; texas_url; ohio_url])
  | _ => False
  end.
Proof. vm_compute. reflexivity. Qed.

Lemma site_crawl_4_last_added :
  match site_crawl last_added 4 with
  | Returned unique st =>
      (unique, stderr st, fetch_trace (calls st))
      = ([acme_center],
         [py "Failed to fetch https://example.com/usa/texas/: timed out"],
         [seed_url; ohio_url; texas_url])
  | _ => False
  end.
Proof. vm_compute. reflexivity. Qed.

(** A crawl that has returned returns the same with more passes allowed. *)
Lemma site_crawl_more set_order fuel unique st :
  site_crawl set_order 4 = Returned unique st -> 4 <= fuel ->
  site_crawl set_order fuel = Returned unique st.
Proof.
  unfold site_crawl, scrape_centers.
  destruct (normalize_url no_brackets seed_url seed_url) as [seed|e];
    [|intros H; discriminate H].
  intros H Hfuel. replace fuel with (4 + (fuel - 4)) by lia.
  apply crawl_loop_more. exact H.
Qed.

Lemma site_crawl_first_added fuel :
  4 <= fuel ->
  exists st,
    site_crawl first_added fuel = Returned [acme_center] st
    /\ stderr st = [py "Failed to fetch https://example.com/usa/texas/: timed out"]
    /\ fetch_trace (calls st) = [seed_url; texas_url; ohio_url].
Proof.
  intros Hfuel. pose proof site_crawl_4_first_added as Hrun.
  destruct (site_crawl first_added 4) as [| |unique st] eqn:H4;
    [destruct Hrun | destruct Hrun |].
  injection Hrun as -> Herr Htrace. exists st.
  split; [exact (site_crawl_more _ _ _ _ H4 Hfuel)|].
  split; [exact Herr | exact Htrace].
Qed.

Lemma site_crawl_last_added fuel :
  4 <= fuel ->
  exists st,
    site_crawl last_added fuel = Returned [acme_center] st
    /\ stderr st = [py "Failed to fetch https://example.com/usa/texas/: timed out"]
    /\ fetch_trace (calls st) = [seed_url; ohio_url; texas_url].
Proof.
  intros Hfuel. pose proof site_crawl_4_last_added as Hrun.
  destruct (site_crawl last_added 4) as [| |unique st] eqn:H4;
    [destruct Hrun | destruct Hrun |].
  injection Hrun as -> Herr Htrace. exists st.
  split; [exact (site_crawl_more _ _ _ _ H4 Hfuel)|].
  split; [exact Herr | exact Htrace].
Qed.

(** C4: when the fetch of the dequeued URL raises [HTTPError] or
    [URLError], the pass prints the error to [sys.stderr] and the loop goes
    on with the rest of the queue, the records unchanged; nothing is raised.
    On the sample site, where one of the two linked region pages fails to
    fetch and the other yields one record, the crawl returns exactly that
    record, in either order of the two pages, given four passes or more. *)
Theorem scrape_centers_survives_fetch_failure
    (bracketed_host_ok : pystr -> bool) (title : pystr -> pystr)
    (json_loads : pystr -> option json) (parse_html : pystr -> Soup)
    (set_order : list pystr -> list pystr)
    (World : Type) (fetch_html : World -> pystr -> World * result pystr)
    (start_url : pystr) (dump_html : option pystr) :
  (forall (st : Crawl World) url rest w e exc,
     queue st = url :: rest -> url ∉ visited st ->
     fetch_html (world st) url = (w, Raise e) ->
     e = HTTPError exc \/ e = URLError exc ->
     iteration bracketed_host_ok title json_loads parse_html set_order fetch_html
       start_url dump_html st
     = Running (mkCrawl rest ({[url]} ∪ visited st) (centers st) w
                  (stderr st ++ [py "Failed to fetch " ++ url ++ py ": " ++ exc])
                  (files st) (calls st ++ [CallFetch url])))
  /\ (forall fuel, 4 <= fuel ->
        exists st st',
          site_crawl first_added fuel = Returned [acme_center] st
          /\ stderr st = [py "Failed to fetch https://example.com/usa/texas/: timed out"]
          /\ fetch_trace (calls st) = [seed_url; texas_url; ohio_url]
          /\ site_crawl last_added fuel = Returned [acme_center] st'
          /\ stderr st' = [py "Failed to fetch https://example.com/usa/texas/: timed out"]
          /\ fetch_trace (calls st') = [seed_url; ohio_url; texas_url]).
Proof.
  split.
  - intros. by eapply iteration_fetch_failure.
  - intros fuel Hfuel.
    destruct (site_crawl_first_added fuel Hfuel) as (st & H1 & H2 & H3).
    destruct (site_crawl_last_added fuel Hfuel) as (st' & H4 & H5 & H6).
    exists st, st'. auto 10.
Qed.

(** * The theorems on the sample data *)

Lemma dedupe_centers_first_seen_wins_witness :
  NoDup (key <$> dedupe_centers [acme_center; acme_center])
  /\ exists i, first_occurrence [acme_center; acme_center] i acme_center.
Proof.
  destruct (dedupe_centers_first_seen_wins [acme_center; acme_center])
    as (Hnodup & _ & Hfirst & _).
  split; [exact Hnodup|]. apply Hfirst. vm_compute. left.
Defined.

Lemma classify_location_url_boundaries_witness :
  classify_location_url no_brackets
    (py "https://example.com/USA/texas/austin/round-rock/") (py "example.com")
  = Ok (Some (py "city")).
Proof.
  destruct (classify_location_url_boundaries no_brackets) as (_ & _ & _ & _ & H).
  destruct (H (py "https://example.com/USA/texas/austin/round-rock/") (py "example.com")
              (mkParse (py "https") (py "example.com")
                 (py "/USA/texas/austin/round-rock/") [] [] []))
    as (_ & _ & _ & Hcount); [vm_compute; reflexivity|].
  destruct (Hcount (py "USA") [py "texas"; py "austin"; py "round-rock"])
    as [_ Hcity]; [reflexivity | vm_compute; reflexivity | vm_compute; reflexivity|].
  apply Hcity. simpl. lia.
Defined.

Lemma scrape_centers_fetches_once_witness :
  NoDup (fetch_trace (calls (outcome_state (site_crawl first_added 6)))).
Proof.
  destruct (scrape_centers_fetches_once no_brackets (fun s => s) site_json_loads
              site_parse_html first_added nat site_fetch seed_url None 6 0)
    as (Hnodup & _).
  exact Hnodup.
Defined.

Lemma scrape_centers_extractor_fallback_witness :
  crawl_calls no_brackets (fun s => s) site_json_loads
    (calls (outcome_state (site_crawl first_added 6)))
    (centers (outcome_state (site_crawl first_added 6))).
Proof.
  destruct (scrape_centers_extractor_fallback no_brackets (fun s => s) site_json_loads
              site_parse_html first_added nat site_fetch seed_url None 6 0)
    as (Hcalls & _).
  exact Hcalls.
Defined.

Lemma scrape_centers_survives_fetch_failure_witness :
  let st := mkCrawl [texas_url; ohio_url] {[seed_url]} [] 1 [] [] [CallFetch seed_url] in
  iteration no_brackets (fun s => s) site_json_loads site_parse_html first_added
    site_fetch seed_url None st
  = Running
      (mkCrawl [ohio_url] ({[texas_url]} ∪ visited st) (centers st) 2
         (stderr st ++ [py "Failed to fetch " ++ texas_url ++ py ": " ++ py "timed out"])
         (files st) (calls st ++ [CallFetch texas_url])).
Proof.
  intros st.
  destruct (scrape_centers_survives_fetch_failure no_brackets (fun s => s) site_json_loads
              site_parse_html first_added nat site_fetch seed_url None)
    as [Hstep _].
  apply (Hstep st texas_url [ohio_url] 2 (URLError (py "timed out")) (py "timed out")).
  - reflexivity.
  - simpl. intros Hin. apply elem_of_singleton in Hin. discriminate Hin.
  - reflexivity.
  - right. reflexivity.
Defined.

(** * More on whitespace normalization *)

Lemma split_by_cons p s : exists seg segs, split_by p s = seg :: segs.
Proof.
  destruct s as [|c s]; simpl; [eauto|].
  destruct (p c); [eauto|]. destruct (split_by p s); eauto.
Qed.

Lemma join_cons_char sep c seg segs :
  join sep ((c :: seg) :: segs) = c :: join sep (seg :: segs).
Proof. by destruct segs. Qed.

(** Joining the pieces of [s] with the separator gives [s] back, when
    every separator in [s] is that character. *)
Lemma join_split_by p c s :
  Forall (fun x => p x = true -> x = c) s -> join [c] (split_by p s) = s.
Proof.
  induction 1 as [|x s Hx Hs IH]; [done|]. simpl.
  destruct (split_by_cons p s) as (seg & segs & Hsplit). rewrite Hsplit in *.
  destruct (p x) eqn:Hp.
  - rewrite (Hx eq_refl). change (c :: join [c] (seg :: segs) = c :: s). by rewrite IH.
  - by rewrite join_cons_char, IH.
Qed.

(** The pieces of a text without leading, trailing or adjacent
    whitespace: only the first can be empty, and it is when the text is. *)
Lemma split_by_isspace_pieces s :
  (forall c, last s = Some c -> isspace c = false) ->
  no_adjacent_spaces s ->
  exists seg segs,
    split_by isspace s = seg :: segs
    /\ Forall (fun w => w <> []) segs
    /\ (seg = [] -> forall c, head s = Some c -> isspace c = true).
Proof.
  induction s as [|x s IH]; intros Hlast Hadj; simpl.
  - exists [], []. repeat split; [constructor | done].
  - destruct s as [|y s].
    + simpl. destruct (isspace x) eqn:Hx.
      * specialize (Hlast x eq_refl). congruence.
      * exists [x], []. repeat split; [constructor | done].
    + destruct IH as (seg & segs & Hsplit & Hsegs & Hseg).
      { intros c Hc. apply Hlast. by rewrite last_cons_cons. }
      { by destruct Hadj. }
      rewrite Hsplit. destruct (isspace x) eqn:Hx.
      * exists [], (seg :: segs). repeat split; [|by intros _ c [= <-]].
        constructor; [|done]. intros ->. destruct Hadj as [Hxy _].
        apply Hxy. split; [done|]. by apply (Hseg eq_refl).
      * exists (x :: seg), segs. repeat split; [done | done].
Qed.

Lemma filter_nonempty_id (ws : list (list ascii)) :
  Forall (fun w => w <> []) ws -> filter nonempty ws = ws.
Proof.
  induction 1 as [|w ws Hw Hws IH]; [done|].
  rewrite filter_cons_True by (by destruct w). by rewrite IH.
Qed.

Lemma normalize_whitespace_fixed s :
  whitespace_normalized s -> normalize_whitespace s = s.
Proof.
  intros (Hchars & Hhead & Hlast & Hadj). unfold normalize_whitespace, split_ws.
  destruct s as [|x s]; [done|].
  destruct (split_by_isspace_pieces (x :: s) Hlast Hadj) as (seg & segs & Hsplit & Hsegs & Hseg).
  rewrite <- (join_split_by isspace " " (x :: s)) at 2 by done.
  rewrite Hsplit. f_equal. apply filter_nonempty_id. constructor; [|done].
  intros ->. specialize (Hseg eq_refl x eq_refl). specialize (Hhead x eq_refl). congruence.
Qed.

(** X1: the texts that [normalize_whitespace] leaves unchanged are the
    whitespace-normalized ones, and its results are among them: applying it
    twice is applying it once. *)
Theorem normalize_whitespace_fixed_points (text : pystr) :
  (normalize_whitespace text = text <-> whitespace_normalized text)
  /\ normalize_whitespace (normalize_whitespace text) = normalize_whitespace text.
Proof.
  split; [split|].
  - intros <-. apply normalize_whitespace_normalized.
  - apply normalize_whitespace_fixed.
  - apply normalize_whitespace_fixed, normalize_whitespace_normalized.
Qed.

Lemma normalize_whitespace_fixed_points_witness :
  whitespace_normalized (py "1 Main St").
Proof.
  destruct (normalize_whitespace_fixed_points (py "1 Main St")) as [[Hfix _] _].
  apply Hfix. vm_compute. reflexivity.
Defined.

Lemma concat_split_by p s :
  concat (split_by p s) = filter (fun c => p c = false) s.
Proof.
  induction s as [|x s IH]; [done|]. simpl.
  destruct (split_by_cons p s) as (seg & segs & Hsplit). rewrite Hsplit in *.
  destruct (p x) eqn:Hp.
  - rewrite filter_cons_False by congruence. done.
  - rewrite filter_cons_True by done. simpl in *. by rewrite IH.
Qed.

Lemma concat_filter_nonempty (ws : list (list ascii)) :
  concat (filter nonempty ws) = concat ws.
Proof.
  induction ws as [|w ws IH]; [done|]. rewrite filter_cons.
  destruct w; simpl; [done|]. by rewrite IH.
Qed.

Lemma filter_nonspace_word w :
  Forall (fun c => isspace c = false) w -> filter (fun c => isspace c = false) w = w.
Proof.
  induction 1 as [|c w Hc Hw IH]; [done|]. rewrite filter_cons_True by done. by rewrite IH.
Qed.

Lemma filter_nonspace_join ws :
  Forall (fun w => w <> [] /\ Forall (fun c => isspace c = false) w) ws ->
  filter (fun c => isspace c = false) (join (py " ") ws) = concat ws.
Proof.
  induction 1 as [|w ws [_ Hw] Hws IH]; [done|].
  destruct ws as [|w' ws].
  - simpl. rewrite app_nil_r. by apply filter_nonspace_word.
  - change (join (py " ") (w :: w' :: ws)) with (w ++ " "%char :: join (py " ") (w' :: ws)).
    rewrite filter_app, filter_cons_False by done.
    rewrite IH, filter_nonspace_word by done. done.
Qed.

Lemma normalize_whitespace_keeps text :
  filter (fun c => isspace c = false) (normalize_whitespace text)
  = filter (fun c => isspace c = false) text.
Proof.
  unfold normalize_whitespace. rewrite filter_nonspace_join by apply split_ws_words.
  unfold split_ws. by rewrite concat_filter_nonempty, concat_split_by.
Qed.

Lemma filter_nonspace_nil s :
  filter (fun c => isspace c = false) s = [] <-> Forall (fun c => isspace c = true) s.
Proof.
  induction s as [|c s IH]; [by split; [constructor|]|].
  rewrite filter_cons, Forall_cons. destruct (isspace c) eqn:Hc.
  - rewrite decide_False by done. rewrite IH. naive_solver.
  - rewrite decide_True by done. naive_solver.
Qed.

(** X2: [normalize_whitespace] keeps the characters that are no whitespace,
    in their order, and nothing else but single spaces; its result is empty
    exactly when the text holds whitespace only. *)
Theorem normalize_whitespace_keeps_text (text : pystr) :
  filter (fun c => isspace c = false) (normalize_whitespace text)
  = filter (fun c => isspace c = false) text
  /\ Forall (fun c => isspace c = true -> c = " "%char) (normalize_whitespace text)
  /\ (normalize_whitespace text = [] <-> Forall (fun c => isspace c = true) text).
Proof.
  split; [apply normalize_whitespace_keeps|].
  destruct (normalize_whitespace_normalized text) as (Hchars & Hhead & _).
  split; [done|]. rewrite <- filter_nonspace_nil, <- normalize_whitespace_keeps. split.
  - by intros ->.
  - destruct (normalize_whitespace text) as [|c s]; [done|].
    rewrite filter_cons_True by (by apply Hhead). done.
Qed.

Lemma normalize_whitespace_keeps_text_witness :
  normalize_whitespace (py "   ") = [].
Proof.
  destruct (normalize_whitespace_keeps_text (py "   ")) as (_ & _ & [_ Hempty]).
  apply Hempty. repeat constructor.
Defined.

(** * More on deduplication *)

Lemma dedupe_centers_keys cs k :
  k ∈ key <$> dedupe_centers cs <-> k ∈ key <$> cs.
Proof. apply dedupe_unique_keys. Qed.

Lemma dedupe_centers_NoDup cs : NoDup (key <$> dedupe_centers cs).
Proof.
  induction cs as [|c cs IH] using rev_ind; [constructor|].
  rewrite dedupe_centers_snoc. case_bool_decide as Hseen; [done|].
  rewrite fmap_app. apply NoDup_app. split; [done|]. split; [|apply NoDup_singleton].
  intros k Hk ->%list_elem_of_singleton. apply Hseen. by apply dedupe_centers_keys.
Qed.

Lemma dedupe_centers_distinct cs :
  NoDup (key <$> cs) -> dedupe_centers cs = cs.
Proof.
  induction cs as [|c cs IH] using rev_ind; [done|].
  rewrite fmap_app. intros (Hcs & Hc & _)%NoDup_app.
  rewrite dedupe_centers_snoc, IH by done.
  rewrite bool_decide_eq_false_2; [done|].
  intros Hin. apply (Hc _ Hin). by left.
Qed.

Lemma dedupe_centers_sublist cs : (dedupe_centers cs) `sublist_of` cs.
Proof.
  induction cs as [|c cs IH] using rev_ind; [done|].
  rewrite dedupe_centers_snoc. case_bool_decide.
  - by apply sublist_inserts_r.
  - by apply sublist_app.
Qed.

(** X3: [dedupe_centers] returns a list with the same keys and no larger
    than its argument, made of records of the argument in their order;
    it returns a list without repeated keys unchanged, so deduplicating
    twice is deduplicating once; and what it returns for a list followed by
    another starts with what it returns for the first. *)
Theorem dedupe_centers_idempotent (centers : list DataCenter) :
  dedupe_centers (dedupe_centers centers) = dedupe_centers centers
  /\ (NoDup (key <$> centers) -> dedupe_centers centers = centers)
  /\ (dedupe_centers centers) `sublist_of` centers
  /\ length (dedupe_centers centers) <= length centers
  /\ (forall more,
        (dedupe_centers centers) `prefix_of` (dedupe_centers (centers ++ more))).
Proof.
  split; [apply dedupe_centers_distinct, dedupe_centers_NoDup|].
  split; [apply dedupe_centers_distinct|].
  split; [apply dedupe_centers_sublist|].
  split; [apply sublist_length, dedupe_centers_sublist|].
  intros more. induction more as [|c more IH] using rev_ind.
  - by rewrite app_nil_r.
  - rewrite app_assoc, dedupe_centers_snoc. case_bool_decide; [done|].
    by apply prefix_app_r.
Qed.

Lemma dedupe_centers_idempotent_witness :
  dedupe_centers [acme_center] = [acme_center].
Proof.
  destruct (dedupe_centers_idempotent [acme_center]) as (_ & Hsame & _).
  apply Hsame. apply NoDup_singleton.
Defined.

(** * More on the heuristic extractor *)

(** One pass of the loop of [extract_from_links] leaves the pair
    [(seen, centers)] as it is or adds one record with a new url. *)
Lemma link_step_cases base ds dc acc link :
  link_step base ds dc acc link = acc
  \/ exists r,
       link_step base ds dc acc link = ({[url r]} ∪ acc.1, acc.2 ++ [r])
       /\ ~ (url r ∈ acc.1)
       /\ re_search DATA_CENTER_PATH_RE (href link) = true
       /\ url r = (if startswith (py "/") (href link)
                   then rstrip (char_eqb "/") base ++ href link
                   else href link)
       /\ name r = normalize_whitespace (anchor_text link)
       /\ name r <> []
       /\ address r = match address_candidate link with
                      | Some t => normalize_whitespace t
                      | None => []
                      end
       /\ city r = dc /\ state r = ds /\ postal_code r = [].
Proof.
  unfold link_step.
  destruct (re_search DATA_CENTER_PATH_RE (href link)) eqn:Hre; cbn [negb]; [|by left].
  destruct (nonempty (normalize_whitespace (anchor_text link))) eqn:Hname;
    cbn [negb]; [|by left].
  case_bool_decide as Hseen; [by left|]. right.
  eexists (mkDataCenter _ _ _ _ _ _). split; [reflexivity|]. simpl.
  repeat split; try done. by apply nonempty_true.
Qed.

(** A matching anchor with a name leaves its url among the seen ones. *)
Lemma link_step_seen base ds dc acc link :
  re_search DATA_CENTER_PATH_RE (href link) = true ->
  normalize_whitespace (anchor_text link) <> [] ->
  (if startswith (py "/") (href link)
   then rstrip (char_eqb "/") base ++ href link
   else href link) ∈ (link_step base ds dc acc link).1.
Proof.
  intros Hre Hname%nonempty_true. unfold link_step. rewrite Hre, Hname. cbn [negb].
  case_bool_decide; [done|]. simpl. set_solver.
Qed.

Lemma link_step_seen_mono base ds dc acc link u :
  u ∈ acc.1 -> u ∈ (link_step base ds dc acc link).1.
Proof.
  intros Hu. destruct (link_step_cases base ds dc acc link) as [-> | (r & -> & _)];
    [done|]. simpl. set_solver.
Qed.

Lemma re_search_nonempty s :
  re_search DATA_CENTER_PATH_RE s = true -> s <> [].
Proof. by intros H ->. Qed.

(** X4: the records of [extract_from_links] have pairwise different urls;
    each has a non-empty, whitespace-normalized name, a whitespace-normalized
    address, a non-empty url, no postal code and the caller's city and state;
    every anchor that matches the facility pattern and has a name has its
    url among them; and there are no more records than anchors. *)
Theorem extract_from_links_records
    (soup : Soup) (base_url default_state default_city : pystr) :
  let rs := extract_from_links soup base_url default_state default_city in
  NoDup (url <$> rs)
  /\ (forall r, r ∈ rs ->
        name r <> [] /\ whitespace_normalized (name r)
        /\ whitespace_normalized (address r) /\ url r <> []
        /\ postal_code r = [] /\ city r = default_city /\ state r = default_state)
  /\ (forall link,
        link ∈ anchors soup ->
        re_search DATA_CENTER_PATH_RE (href link) = true ->
        normalize_whitespace (anchor_text link) <> [] ->
        (if startswith (py "/") (href link)
         then rstrip (char_eqb "/") base_url ++ href link
         else href link) ∈ url <$> rs)
  /\ length rs <= length (anchors soup).
Proof.
  unfold extract_from_links.
  set (step := link_step base_url default_state default_city).
  assert (Hinv : forall links,
    let acc := fold_left step links (∅, []) in
    (forall u, u ∈ acc.1 <-> u ∈ url <$> acc.2)
    /\ NoDup (url <$> acc.2)
    /\ (forall r, r ∈ acc.2 ->
          name r <> [] /\ whitespace_normalized (name r)
          /\ whitespace_normalized (address r) /\ url r <> []
          /\ postal_code r = [] /\ city r = default_city /\ state r = default_state)
    /\ (forall link,
          link ∈ links ->
          re_search DATA_CENTER_PATH_RE (href link) = true ->
          normalize_whitespace (anchor_text link) <> [] ->
          (if startswith (py "/") (href link)
           then rstrip (char_eqb "/") base_url ++ href link
           else href link) ∈ acc.1)
    /\ length acc.2 <= length links).
  { induction links as [|link links (Hseen & Hnodup & Hrecs & Hall & Hlen)] using rev_ind.
    - simpl. repeat split; try done; try constructor; set_solver.
    - rewrite fold_left_app. cbn [fold_left]. rewrite length_app. cbn [length].
      pose proof (link_step_seen base_url default_state default_city
                    (fold_left step links (∅, [])) link) as Hnew.
      pose proof (link_step_seen_mono base_url default_state default_city
                    (fold_left step links (∅, [])) link) as Hmono.
      assert (Hall' : forall l,
                l ∈ links ++ [link] ->
                re_search DATA_CENTER_PATH_RE (href l) = true ->
                normalize_whitespace (anchor_text l) <> [] ->
                (if startswith (py "/") (href l)
                 then rstrip (char_eqb "/") base_url ++ href l
                 else href l) ∈ (step (fold_left step links (∅, [])) link).1).
      { intros l [Hl | ->%list_elem_of_singleton]%elem_of_app Hre Hname.
        - apply Hmono. by apply Hall.
        - by apply Hnew. }
      clear Hnew Hmono. subst step. revert Hall'.
      destruct (link_step_cases base_url default_state default_city
                  (fold_left (link_step base_url default_state default_city) links (∅, []))
                  link)
        as [-> | (r & -> & Hfresh & Hre & Hurl & Hname & Hne & Haddr & Hc & Hs & Hp)];
        intros Hall'.
      + repeat split; try done; try apply Hseen; try (by apply Hrecs); lia.
      + cbn [fst snd]. rewrite fmap_app. cbn [fmap list_fmap].
        split; [|split; [|split; [|split]]].
        * intros u. rewrite elem_of_union, elem_of_singleton, elem_of_app,
            list_elem_of_singleton, Hseen. tauto.
        * apply NoDup_app. split; [done|]. split; [|apply NoDup_singleton].
          intros u Hu ->%list_elem_of_singleton. apply Hfresh. by apply Hseen.
        * intros r' [Hr' | ->%list_elem_of_singleton]%elem_of_app; [by apply Hrecs|].
          split; [done|]. rewrite Hname, Haddr.
          split; [apply normalize_whitespace_normalized|].
          split.
          { destruct (address_candidate link);
              [apply normalize_whitespace_normalized | repeat split; done]. }
          split; [|done]. rewrite Hurl. apply re_search_nonempty in Hre.
          destruct (startswith _ _); [|done].
          intros [_ ?]%app_eq_nil. done.
        * done.
        * rewrite length_app. simpl. lia. }
  destruct (Hinv (anchors soup)) as (Hseen & Hnodup & Hrecs & Hall & Hlen).
  cbv zeta. split; [done|]. split; [done|]. split; [|done].
  intros link Hlink Hre Hname. apply Hseen. by apply Hall.
Qed.

Lemma extract_from_links_records_witness :
  py "https://example.com/data-centers/acme/"
  ∈ (url <$> extract_from_links
               (mkSoup [] [mkAnchor (py "/data-centers/acme/") (py " Acme  DC ") None])
               (py "https://example.com/") [] []).
Proof.
  destruct (extract_from_links_records
              (mkSoup [] [mkAnchor (py "/data-centers/acme/") (py " Acme  DC ") None])
              (py "https://example.com/") [] []) as (_ & _ & Hall & _).
  apply (Hall (mkAnchor (py "/data-centers/acme/") (py " Acme  DC ") None)).
  - left.
  - reflexivity.
  - discriminate.
Defined.

(** * More on the structured extractor *)

Lemma entry_center_truthy entry ds dc r :
  entry_center entry ds dc = Ok (Some r) ->
  field_text entry "name" <> [] /\ url r <> [].
Proof.
  unfold entry_center, field_text. intros H.
  destruct (truthy (get_or_empty entry "name") && truthy (get_or_empty entry "url"))
    eqn:Htruthy; [|done].
  apply andb_prop in Htruthy as [Hname Hurl].
  destruct (get_or_empty entry "name") as [| | |n| |]; try done.
  split; [by destruct n|].
  repeat match type of H with
  | bind ?c _ = _ => destruct c; simpl in H; [|done]
  end.
  destruct (get_or_empty entry "url") as [| | |u| |]; try done.
  injection H as <-. simpl. by destruct u.
Qed.

(** X5: every record of the structured extractor has a non-empty url and
    comes from a listed entry with a non-empty name, of which the record's
    name is the whitespace-normalized form; the record's name is empty
    exactly when the entry's name is whitespace only. *)
Theorem structured_names_and_urls
    (items : list dict) (default_state default_city : pystr)
    (recs : list DataCenter) (r : DataCenter) :
  extract_from_itemlist items default_state default_city = Ok recs ->
  r ∈ recs ->
  url r <> []
  /\ exists entry,
       listed_entry items entry
       /\ field_text entry "name" <> []
       /\ name r = normalize_whitespace (field_text entry "name")
       /\ (name r = [] <-> Forall (fun c => isspace c = true) (field_text entry "name")).
Proof.
  intros Hrecs Hr.
  destruct (extract_from_itemlist_elem _ _ _ _ _ Hrecs Hr) as (entry & Hlisted & Hentry).
  destruct (entry_center_truthy _ _ _ _ Hentry) as [Hname Hurl].
  apply entry_center_Some in Hentry as (Hnorm & _).
  split; [done|]. exists entry. repeat split; try done; rewrite Hnorm.
  - by apply normalize_whitespace_keeps_text.
  - by apply normalize_whitespace_keeps_text.
Qed.

Lemma structured_names_and_urls_witness :
  exists r,
    extract_from_itemlist
      [item_list_of (jdict [("name", jstr "  "); ("url", jstr "https://example.com/x")])]
      [] [] = Ok [r]
    /\ name r = [] /\ url r <> [].
Proof.
  eexists. split; [vm_compute; reflexivity|]. split; [reflexivity|].
  eapply (structured_names_and_urls
            [item_list_of (jdict [("name", jstr "  "); ("url", jstr "https://example.com/x")])]
            [] []).
  - vm_compute. reflexivity.
  - left.
Defined.

Lemma bind_Ok_r {A} (r : result (list A)) : (x <- r ;; Ok ([] ++ x)) = r.
Proof. by destruct r. Qed.

Lemma extract_from_itemlist_app a b ds dc :
  extract_from_itemlist (a ++ b) ds dc =
  (ca <- extract_from_itemlist a ds dc ;;
   cb <- extract_from_itemlist b ds dc ;;
   Ok (ca ++ cb)).
Proof.
  induction a as [|item a IH]; simpl.
  - by destruct (extract_from_itemlist b ds dc).
  - rewrite IH. destruct (item_centers item ds dc) as [cs|e]; simpl; [|done].
    destruct (extract_from_itemlist a ds dc) as [ca|e]; simpl; [|done].
    destruct (extract_from_itemlist b ds dc) as [cb|e]; simpl; [|done].
    by rewrite app_assoc.
Qed.

Lemma item_centers_other item ds dc :
  is_item_list item = false -> item_centers item ds dc = Ok [].
Proof.
  unfold is_item_list, item_centers.
  destruct (dict_get item "@type") as [[| | |t| |]|]; try done. by intros ->.
Qed.

(** X6: the structured extractor works item by item: the records of a list
    of items followed by another are those of the first followed by those of
    the second, and an exception in either is raised; an item that is no
    item list contributes nothing and can be left out. *)
Theorem extract_from_itemlist_item_by_item
    (a b : list dict) (default_state default_city : pystr) :
  extract_from_itemlist (a ++ b) default_state default_city =
  (ca <- extract_from_itemlist a default_state default_city ;;
   cb <- extract_from_itemlist b default_state default_city ;;
   Ok (ca ++ cb))
  /\ (forall item,
        is_item_list item = false ->
        extract_from_itemlist (a ++ item :: b) default_state default_city
        = extract_from_itemlist (a ++ b) default_state default_city).
Proof.
  split; [apply extract_from_itemlist_app|].
  intros item Hitem. rewrite !extract_from_itemlist_app. simpl.
  rewrite (item_centers_other _ _ _ Hitem). simpl.
  destruct (extract_from_itemlist a _ _); simpl; [|done].
  by destruct (extract_from_itemlist b _ _).
Qed.

Lemma extract_from_itemlist_item_by_item_witness :
  extract_from_itemlist
    ([item_list_of acme_entry] ++ [(py "@type", jstr "WebSite")] :: []) [] []
  = Ok [acme_center].
Proof.
  destruct (extract_from_itemlist_item_by_item [item_list_of acme_entry] [] [] [])
    as [_ Hskip].
  rewrite Hskip by reflexivity. vm_compute. reflexivity.
Defined.

Lemma collect_Ok {A B} (f : A -> result (option B)) l :
  Forall (fun x => exists o, f x = Ok o) l -> exists rs, collect f l = Ok rs.
Proof.
  induction 1 as [|x l [o Hx] Hl [rs IH]]; simpl; [eauto|].
  rewrite Hx, IH. simpl. eauto.
Qed.

Lemma text_field_str d k : text_field d k = true -> exists s, get_or_empty d k = JStr s.
Proof. unfold text_field. destruct (get_or_empty d k); try done. eauto. Qed.

Lemma entry_center_text entry ds dc :
  text_entry entry = true -> exists o, entry_center entry ds dc = Ok o.
Proof.
  unfold text_entry, entry_center.
  intros [[(n & ->)%text_field_str (u & ->)%text_field_str]%andb_prop Haddr]%andb_prop.
  destruct (truthy (JStr n) && truthy (JStr u)); [|eauto].
  destruct (dict_get entry "address") as [[| | | | |a]|]; simpl; eauto.
  apply andb_prop in Haddr as [[[(s1 & ->)%text_field_str (s2 & ->)%text_field_str]%andb_prop
    (s3 & ->)%text_field_str]%andb_prop (s4 & ->)%text_field_str].
  simpl. eauto.
Qed.

Lemma element_center_text element ds dc :
  text_element element = true -> exists o, element_center element ds dc = Ok o.
Proof.
  unfold text_element, element_center.
  destruct element as [| | | | |d]; eauto.
  destruct (dict_get d "item") as [[| | | | |entry]|]; eauto.
  apply entry_center_text.
Qed.

Lemma item_centers_text item ds dc :
  text_item item = true -> exists cs, item_centers item ds dc = Ok cs.
Proof.
  unfold text_item. destruct (is_item_list item) eqn:Hlist; simpl.
  - unfold is_item_list, item_centers in *.
    destruct (dict_get item "@type") as [[| | |t| |]|]; try done. rewrite Hlist.
    destruct (dict_get item "itemListElement") as [[| | |s|l|d]|]; try done; simpl; intros H.
    + apply collect_Ok, Forall_forall. intros x (c & -> & _)%list_elem_of_fmap. simpl. eauto.
    + apply collect_Ok, Forall_forall. intros x Hx. apply element_center_text.
      rewrite forallb_forall in H. apply H. by apply list_elem_of_In.
    + apply collect_Ok, Forall_forall. intros x (kv & -> & _)%list_elem_of_fmap. simpl. eauto.
    + eauto.
  - intros _. rewrite item_centers_other by done. eauto.
Qed.

(** X7: the structured extractor returns, without an exception, when every
    item list among the items has elements that can be looped over (a list;
    also a mapping or a text, or none) and entries whose name, url and
    address parts are each missing, false or a text. *)
Theorem extract_from_itemlist_returns
    (items : list dict) (default_state default_city : pystr) :
  forallb text_item items = true ->
  exists recs, extract_from_itemlist items default_state default_city = Ok recs.
Proof.
  induction items as [|item items IH]; simpl; [eauto|].
  intros [Hitem Hitems]%andb_prop.
  destruct (item_centers_text item default_state default_city Hitem) as [cs ->].
  destruct (IH Hitems) as [recs ->]. simpl. eauto.
Qed.

Lemma extract_from_itemlist_returns_witness :
  exists recs, extract_from_itemlist [item_list_of acme_entry] [] [] = Ok recs.
Proof. apply extract_from_itemlist_returns. reflexivity. Defined.

(** X8: what makes the structured extractor raise.  An item list whose
    ["itemListElement"] is [null], a boolean or a number raises [TypeError],
    and an entry with a url whose name is a true value that is no text (a
    number, [true], a non-empty list or mapping) raises [AttributeError],
    when the items before returned; the records found before are lost. *)
Theorem extract_from_itemlist_raises
    (before after : list dict) (default_state default_city : pystr)
    (found : list DataCenter) :
  extract_from_itemlist before default_state default_city = Ok found ->
  (forall item v,
     is_item_list item = true ->
     dict_get item "itemListElement" = Some v ->
     (v = JNull \/ (exists b, v = JBool b) \/ (exists z, v = JNum z)) ->
     extract_from_itemlist (before ++ item :: after) default_state default_city
     = Raise TypeError)
  /\ (forall entry v u,
        dict_get entry "name" = Some v -> truthy v = true ->
        (forall s, v <> JStr s) ->
        dict_get entry "url" = Some (JStr u) -> u <> [] ->
        extract_from_itemlist (before ++ item_list_of (JDict entry) :: after)
          default_state default_city
        = Raise AttributeError).
Proof.
  intros Hbefore. split.
  - intros item v Hlist Hv Hkind.
    rewrite extract_from_itemlist_app, Hbefore. simpl.
    unfold item_centers, is_item_list in *.
    destruct (dict_get item "@type") as [[| | |t| |]|]; try done.
    rewrite Hlist, Hv. by destruct Hkind as [-> | [[b ->] | [z ->]]].
  - intros entry v u Hname Htrue Hnostr Hurl Hu.
    rewrite extract_from_itemlist_app, Hbefore.
    assert (entry_center entry default_state default_city = Raise AttributeError)
      as Hentry.
    { unfold entry_center, get_or_empty. rewrite Hname, Hurl, Htrue. simpl.
      destruct u; [done|]. simpl.
      destruct v as [|[]|[]|s|[]|[]]; try done. by destruct (Hnostr s). }
    cbn -[item_centers item_list_of].
    assert (item_centers (item_list_of (JDict entry)) default_state default_city
            = Raise AttributeError) as ->; [|done].
    change (item_centers (item_list_of (JDict entry)) default_state default_city)
      with (r <- entry_center entry default_state default_city ;;
            Ok (match r with Some b => [b] | None => [] end)).
    by rewrite Hentry.
Qed.

Lemma extract_from_itemlist_raises_witness :
  extract_from_itemlist
    ([item_list_of acme_entry]
     ++ [(py "@type", jstr "ItemList"); (py "itemListElement", JNull)] :: [])
    [] []
  = Raise TypeError.
Proof.
  destruct (extract_from_itemlist_raises [item_list_of acme_entry] [] [] [] [acme_center])
    as [Htype _]; [vm_compute; reflexivity|].
  apply (Htype _ JNull); [reflexivity | reflexivity | by left].
Defined.

(** * The JSON-LD items of a page, and the fallback *)

Section Pages.

Variable bracketed_host_ok : pystr -> bool.
Variable title : pystr -> pystr.
Variable json_loads : pystr -> option json.

Lemma extract_from_itemlist_no_item_list items ds dc :
  Forall (fun item => is_item_list item = false) items ->
  extract_from_itemlist items ds dc = Ok [].
Proof.
  induction 1 as [|item items Hitem _ IH]; simpl; [done|].
  by rewrite item_centers_other, IH.
Qed.

(** X9: the items [parse_json_ld] returns are the payloads that are
    mappings, and the mappings in the payloads that are lists, of the
    scripts whose text is not empty and decodes; a script without text or
    whose text does not decode is skipped, with no exception.  The items come
    in the order of the scripts. *)
Theorem parse_json_ld_items (soup : Soup) :
  (forall item,
     item ∈ parse_json_ld json_loads soup <->
     exists s payload,
       Some s ∈ ld_json_scripts soup /\ s <> [] /\ json_loads s = Some payload
       /\ (payload = JDict item \/ exists l, payload = JList l /\ JDict item ∈ l))
  /\ (Forall (fun script =>
                match script with
                | Some s => s = [] \/ json_loads s = None
                | None => True
                end) (ld_json_scripts soup) ->
      parse_json_ld json_loads soup = [])
  /\ (forall scripts more links,
        parse_json_ld json_loads (mkSoup (scripts ++ more) links)
        = parse_json_ld json_loads (mkSoup scripts links)
          ++ parse_json_ld json_loads (mkSoup more links)).
Proof.
  split; [|split].
  - intros item. unfold parse_json_ld. rewrite list_elem_of_In, in_flat_map. split.
    + intros ([s|] & Hs%list_elem_of_In & Hitem); [|done].
      destruct (nonempty s) eqn:Hne; [|done]. apply nonempty_true in Hne.
      destruct (json_loads s) as [[| | | |l|d]|] eqn:Hload; try done.
      * apply in_flat_map in Hitem as ([| | | | |d] & Hd%list_elem_of_In & Hitem); try done.
        apply list_elem_of_In, list_elem_of_singleton in Hitem as ->.
        exists s, (JList l). eauto 10.
      * apply list_elem_of_In, list_elem_of_singleton in Hitem as ->.
        exists s, (JDict d). eauto 10.
    + intros (s & payload & Hs & Hne%nonempty_true & Hload & Hpayload).
      exists (Some s). split; [by apply list_elem_of_In|]. rewrite Hne, Hload.
      destruct Hpayload as [-> | (l & -> & Hl)]; [by left|].
      apply in_flat_map. exists (JDict item). split; [by apply list_elem_of_In | by left].
  - unfold parse_json_ld. induction 1 as [|[s|] scripts Hs _ IH]; simpl; [done| |done].
    rewrite IH, app_nil_r. destruct Hs as [-> | ->]; [done|]. by destruct (nonempty s).
  - intros scripts more links. unfold parse_json_ld. simpl. apply flat_map_app.
Qed.

(** X10: a page none of whose JSON-LD items is an item list (so also a
    page with no JSON-LD item) gets its records from the heuristic extractor,
    run on the page URL and the same defaults, whatever else the items
    hold. *)
Theorem page_centers_without_item_list
    (soup : Soup) (url default_state default_city : pystr) :
  Forall (fun item => is_item_list item = false) (parse_json_ld json_loads soup) ->
  page_centers json_loads soup url default_state default_city
  = Ok (extract_from_links soup url default_state default_city,
        [CallItemlist (parse_json_ld json_loads soup) default_state default_city;
         CallLinks soup url default_state default_city]).
Proof.
  intros Hitems. unfold page_centers.
  by rewrite extract_from_itemlist_no_item_list.
Qed.

End Pages.

Lemma parse_json_ld_items_witness :
  parse_json_ld site_json_loads (mkSoup [None; Some (py "{not json"); Some []] []) = [].
Proof.
  apply (parse_json_ld_items site_json_loads).
  apply Forall_cons; split; [done|].
  apply Forall_cons; split; [by right|].
  apply Forall_cons; split; [by left|]. apply Forall_nil_2.
Defined.

Lemma page_centers_without_item_list_witness :
  page_centers site_json_loads
    (mkSoup [] [mkAnchor (py "/datacenters/acme") (py "Acme DC") None])
    (py "https://example.com/usa/texas") (py "Texas") []
  = Ok ([mkDataCenter (py "Acme DC") (py "https://example.com/usa/texas/datacenters/acme")
           [] [] (py "Texas") []],
        [CallItemlist [] (py "Texas") [];
         CallLinks (mkSoup [] [mkAnchor (py "/datacenters/acme") (py "Acme DC") None])
           (py "https://example.com/usa/texas") (py "Texas") []]).
Proof.
  rewrite page_centers_without_item_list by constructor.
  vm_compute. reflexivity.
Defined.

(** * Location pages *)

Section Locations.

Variable bracketed_host_ok : pystr -> bool.
Variable title : pystr -> pystr.

Local Abbreviation classify := (classify_location_url bracketed_host_ok).
Local Abbreviation location_of := (extract_location_from_url bracketed_host_ok title).
Local Abbreviation normalize := (normalize_url bracketed_host_ok).

(** X11: a URL that [classify_location_url] takes for a location page of
    the host has a path [/usa/<state>[/<city>...]] (the first part up to
    case), is a state page exactly when the path has two parts, and
    [extract_location_from_url] reads its defaults off it without an
    exception: the state from the second part, the city from the third, empty
    for a state page. *)
Theorem classified_url_defaults (url base_netloc kind : pystr) :
  classify url base_netloc = Ok (Some kind) ->
  exists parsed usa state_slug more,
    urlparse bracketed_host_ok url [] = Ok parsed
    /\ netloc parsed = base_netloc
    /\ filter nonempty (split_on "/" (path parsed)) = usa :: state_slug :: more
    /\ str_lower usa = py "usa"
    /\ kind = match more with [] => py "state" | _ :: _ => py "city" end
    /\ location_of url
       = Ok (slug_to_name title state_slug,
             match more with
             | [] => []
             | city_slug :: _ => slug_to_name title city_slug
             end).
Proof.
  unfold classify_location_url, extract_location_from_url.
  destruct (urlparse bracketed_host_ok url []) as [parsed|e]; simpl; [|done].
  unfold str_eqb at 1. case_bool_decide as Hhost; simpl; [|done].
  destruct (filter nonempty (split_on "/" (path parsed)))
    as [|usa [|state_slug more]] eqn:Hparts; [done| |].
  - unfold str_eqb. by case_bool_decide.
  - unfold str_eqb. case_bool_decide as Husa; simpl; [|done].
    intros Hkind. exists parsed, usa, state_slug, more.
    do 2 (split; [done|]). split; [exact Hparts|]. split; [done|].
    destruct more as [|city_slug more]; simpl in *; split; congruence.
Qed.

Lemma location_links_elem links base_url base_netloc res u :
  location_links bracketed_host_ok links base_url base_netloc = Ok res ->
  u ∈ res <->
  exists link,
    link ∈ links /\ normalize (href link) base_url = Ok u /\ u <> []
    /\ exists kind, classify u base_netloc = Ok (Some kind).
Proof.
  revert res. induction links as [|link links IH]; intros res; simpl.
  { intros [= <-]. split; [by intros ?%elem_of_nil|].
    by intros (link & ?%elem_of_nil & _). }
  destruct (normalize (href link) base_url) as [normalized|e] eqn:Hnorm; simpl; [|done].
  destruct (nonempty normalized) eqn:Hne; simpl.
  - destruct (classify normalized base_netloc) as [kind|e] eqn:Hkind; simpl; [|done].
    destruct (location_links _ links base_url base_netloc) as [rest|e]; simpl; [|done].
    specialize (IH rest eq_refl). intros [= <-].
    apply nonempty_true in Hne. split.
    + destruct kind as [kind|].
      * intros [-> | Hu]%elem_of_cons.
        -- exists link. split; [by left|]. eauto.
        -- apply IH in Hu as (l & Hl & H). exists l. split; [by right | done].
      * intros Hu. apply IH in Hu as (l & Hl & H). exists l. split; [by right | done].
    + intros (l & [-> | Hl]%elem_of_cons & Hu & Hnonempty & k & Hk).
      * rewrite Hnorm in Hu. injection Hu as ->. rewrite Hkind in Hk.
        injection Hk as ->. by left.
      * assert (u ∈ rest) by (apply IH; eauto 10).
        destruct kind; [by right | done].
  - intros Hres. specialize (IH res Hres). apply nonempty_false in Hne. split.
    + intros Hu. apply IH in Hu as (l & Hl & H). exists l. split; [by right | done].
    + intros (l & [-> | Hl]%elem_of_cons & Hu & Hnonempty & k & Hk).
      * rewrite Hnorm in Hu. by injection Hu as ->.
      * apply IH. eauto 10.
Qed.

(** X12: the links [extract_location_links] returns from a page are
    exactly the non-empty normalized forms, against the page URL, of the
    anchors' hrefs that [classify_location_url] takes for a state or city
    page of the host of the page URL. *)
Theorem extract_location_links_classified
    (soup : Soup) (base_url : pystr) (links : list pystr) :
  extract_location_links bracketed_host_ok soup base_url = Ok links ->
  exists parsed_base,
    urlparse bracketed_host_ok base_url [] = Ok parsed_base
    /\ forall u,
         u ∈ links <->
         exists link,
           link ∈ anchors soup
           /\ normalize (href link) base_url = Ok u /\ u <> []
           /\ exists kind, classify u (netloc parsed_base) = Ok (Some kind).
Proof.
  unfold extract_location_links.
  destruct (urlparse bracketed_host_ok base_url []) as [parsed_base|e]; simpl; [|done].
  intros Hlinks. exists parsed_base. split; [done|].
  intros u. by apply location_links_elem.
Qed.

End Locations.

Lemma classified_url_defaults_witness :
  extract_location_from_url no_brackets (fun s => s)
    (py "https://example.com/USA/new-york/albany/")
  = Ok (py "new york", py "albany").
Proof.
  destruct (classified_url_defaults no_brackets (fun s => s)
              (py "https://example.com/USA/new-york/albany/") (py "example.com")
              (py "city"))
    as (parsed & usa & state_slug & more & Hparsed & _ & Hparts & _ & _ & ->).
  { vm_compute. reflexivity. }
  injection Hparsed as <-. vm_compute in Hparts. injection Hparts as <- <- <-.
  vm_compute. reflexivity.
Defined.

Lemma extract_location_links_classified_witness :
  exists link,
    link ∈ [mkAnchor (py "/usa/ohio/?page=2#list") (py "Ohio") None;
            mkAnchor (py "https://other.example/usa/ohio/") (py "Elsewhere") None]
    /\ normalize_url no_brackets (href link) seed_url = Ok ohio_url.
Proof.
  destruct (extract_location_links_classified no_brackets
              (mkSoup [] [mkAnchor (py "/usa/ohio/?page=2#list") (py "Ohio") None;
                          mkAnchor (py "https://other.example/usa/ohio/")
                            (py "Elsewhere") None])
              seed_url [ohio_url])
    as (parsed_base & _ & Hlinks).
  { vm_compute. reflexivity. }
  destruct (proj1 (Hlinks ohio_url)) as (link & Hlink & Hnorm & _); [by left|].
  exists link. done.
Defined.

(** * More on the crawl *)

Lemma enqueue_all_elem (v : gset pystr) links q u :
  u ∈ fold_left (enqueue v) links q -> u ∈ q \/ u ∈ links.
Proof.
  revert q. induction links as [|l links IH]; intros q; simpl; [by left|].
  intros [Hu | Hu]%IH; [|right; by right].
  unfold enqueue in Hu.
  destruct (bool_decide (l ∉ v) && bool_decide (l ∉ q)); [|by left].
  apply elem_of_app in Hu as [Hu | ->%list_elem_of_singleton]; [by left | right; by left].
Qed.

Lemma enqueue_all_prefix (v : gset pystr) links q :
  q `prefix_of` fold_left (enqueue v) links q.
Proof.
  revert q. induction links as [|l links IH]; intros q; simpl; [done|].
  etrans; [|apply IH]. unfold enqueue.
  destruct (bool_decide (l ∉ v) && bool_decide (l ∉ q)); [|done].
  by apply prefix_app_r.
Qed.

Lemma classify_location_url_netloc bho u n kind :
  classify_location_url bho u n = Ok (Some kind) ->
  exists parsed, urlparse bho u [] = Ok parsed /\ netloc parsed = n.
Proof.
  unfold classify_location_url.
  destruct (urlparse bho u []) as [parsed|e]; simpl; [|done].
  unfold str_eqb at 1. case_bool_decide; [eauto | done].
Qed.

Lemma extract_location_links_elem bho soup base_url links u :
  extract_location_links bho soup base_url = Ok links -> u ∈ links ->
  exists parsed_base link kind,
    urlparse bho base_url [] = Ok parsed_base
    /\ link ∈ anchors soup
    /\ normalize_url bho (href link) base_url = Ok u /\ u <> []
    /\ classify_location_url bho u (netloc parsed_base) = Ok (Some kind).
Proof.
  unfold extract_location_links.
  destruct (urlparse bho base_url []) as [parsed_base|e]; simpl; [|done].
  intros Hlinks Hu. eapply location_links_elem in Hu as (link & ? & ? & ? & kind & ?); [|done].
  exists parsed_base, link, kind. done.
Qed.

(** What [normalize_url] returns holds no ['?'] and no ['#']. *)
Lemma normalize_url_clean bho href base_url u :
  normalize_url bho href base_url = Ok u ->
  has_char "?" u = false /\ has_char "#" u = false.
Proof.
  destruct href as [|c href]; [by intros [= <-]|].
  rewrite normalize_url_nonempty by done.
  destruct (urljoin bho base_url (c :: href)) as [joined|e]; cbn [bind]; [|done].
  destruct (urlparse bho joined []) as [parsed|e] eqn:Hparse; cbn [bind]; [|done].
  destruct (str_in (scheme parsed) ["http"; "https"]) eqn:Hweb; cbn [negb];
    intros Hu; injection Hu as <-; [|done].
  apply web_scheme_in in Hweb.
  destruct (urlparse_web _ _ _ _ Hparse Hweb)
    as (Hcn & Hcu & Hdn & Hq & Hh & Hok & Hsl & Hre).
  rewrite urlunparse_stripped.
  split; apply has_char_urlunsplit; try done;
    try (by destruct Hweb as [-> | ->]); by apply no_delim_has_char.
Qed.

Section Site.

Variable bracketed_host_ok : pystr -> bool.
Variable title : pystr -> pystr.
Variable json_loads : pystr -> option json.
Variable parse_html : pystr -> Soup.
Variable set_order : list pystr -> list pystr.
Variable World : Type.
Variable fetch_html : World -> pystr -> World * result pystr.
Variable start_url : pystr.
Variable dump_html : option pystr.

(** A loop over a set visits only elements of the set. *)
Hypothesis set_order_elem : forall adds u, u ∈ set_order adds -> u ∈ adds.

Local Abbreviation pass :=
  (iteration bracketed_host_ok title json_loads parse_html set_order fetch_html
     start_url dump_html).
Local Abbreviation loop fuel :=
  (crawl_loop bracketed_host_ok title json_loads parse_html set_order fetch_html
     fuel start_url dump_html).
Local Abbreviation run fuel :=
  (scrape_centers bracketed_host_ok title json_loads parse_html set_order fetch_html
     fuel start_url dump_html).

(** What a pass that fetches does to the variables of the crawl. *)
Lemma iteration_fetched (st : Crawl World) url rest :
  queue st = url :: rest -> url ∉ visited st ->
  let st' := outcome_state (pass st) in
  let fetched := fetch_html (world st) url in
  visited st' = {[url]} ∪ visited st
  /\ fetch_trace (calls st') = fetch_trace (calls st) ++ [url]
  /\ world st' = fetched.1
  /\ (queue st' = rest
      \/ exists html links,
           fetched.2 = Ok html
           /\ extract_location_links bracketed_host_ok (parse_html html) url = Ok links
           /\ queue st' = fold_left (enqueue (visited st')) (set_order links) rest)
  /\ (files st' = files st
      \/ exists file html,
           dump_html = Some file /\ url = start_url /\ fetched.2 = Ok html
           /\ files st' = files st ++ [(file, html)])
  /\ (exists page, centers st' = centers st ++ page).
Proof.
  intros Hq Hfresh. cbv zeta. unfold iteration. rewrite Hq.
  rewrite bool_decide_eq_false_2 by done.
  destruct (fetch_html (world st) url) as [w [html|e]]; cbn [fst snd].
  - assert (Hfiles :
      let fs := match dump_html with
                | Some file =>
                    if str_eqb url start_url then files st ++ [(file, html)] else files st
                | None => files st
                end in
      fs = files st
      \/ exists file html',
           dump_html = Some file /\ url = start_url /\ Ok (A:=pystr) html = Ok html'
           /\ fs = files st ++ [(file, html')]).
    { cbv zeta. destruct dump_html as [file|]; [|by left].
      unfold str_eqb. case_bool_decide; [|by left]. right. by exists file, html. }
    destruct (extract_location_from_url _ _ url) as [[ds dc]|e]; cbn [outcome_state].
    + destruct (page_centers json_loads (parse_html html) url ds dc)
        as [[page made]|e] eqn:Hpage; cbn [outcome_state].
      * apply page_centers_made in Hpage.
        destruct (extract_location_links _ _ url) as [links|e] eqn:Hlinks;
          cbn [outcome_state visited calls world queue files centers];
          rewrite !fetch_trace_app, Hpage, app_nil_r;
          (split; [done|]); (split; [done|]); (split; [done|]);
          (split; [|split; [exact Hfiles | by exists page]]).
        -- right. by exists html, links.
        -- by left.
      * cbn [outcome_state visited calls world queue files centers].
        rewrite !fetch_trace_app. cbn [fetch_trace flat_map]. rewrite !app_nil_r.
        do 3 (split; [done|]). split; [by left|]. split; [exact Hfiles|].
        exists []. by rewrite app_nil_r.
    + cbn [outcome_state visited calls world queue files centers].
      rewrite !fetch_trace_app.
      do 3 (split; [done|]). split; [by left|]. split; [exact Hfiles|].
      exists []. by rewrite app_nil_r.
  - assert (forall err fs,
      let st' := mkCrawl rest ({[url]} ∪ visited st) (centers st) w err fs
                   (calls st ++ [CallFetch url]) in
      visited st' = {[url]} ∪ visited st
      /\ fetch_trace (calls st') = fetch_trace (calls st) ++ [url]
      /\ world st' = w /\ queue st' = rest /\ files st' = fs
      /\ centers st' = centers st) as Hst'.
    { intros err fs. cbn. by rewrite fetch_trace_app. }
    destruct (caught e) as [exc|]; cbn [outcome_state];
      match goal with |- context [mkCrawl _ _ _ _ ?err ?fs _] =>
        destruct (Hst' err fs) as (-> & -> & -> & -> & -> & ->)
      end;
      (do 3 (split; [done|])); (split; [by left|]); (split; [by left|]);
      exists []; by rewrite app_nil_r.
Qed.

(** Properties of the crawl state that every pass keeps hold after any
    number of passes. *)
Lemma crawl_loop_keeps (P : Crawl World -> Prop) :
  (forall st, crawl_inv st -> P st -> P (outcome_state (pass st))) ->
  forall fuel st, crawl_inv st -> P st -> P (outcome_state (loop fuel st)).
Proof.
  intros Hstep fuel. induction fuel as [|fuel IH]; intros st Hinv HP; [done|].
  simpl. pose proof (Hstep st Hinv HP) as HP'.
  pose proof (iteration_inv bracketed_host_ok title json_loads parse_html set_order
                World fetch_html start_url dump_html st Hinv) as Hinv'.
  destruct (pass st) as [st'| |]; [by apply IH | done..].
Qed.

Lemma crawl_inv_seed seed (w : World) : crawl_inv (mkCrawl [seed] ∅ [] w [] [] []).
Proof.
  unfold crawl_inv. simpl.
  split; [apply NoDup_nil_2|]. split; [set_solver|].
  split; [apply NoDup_singleton | set_solver].
Qed.

Lemma scrape_centers_keeps (P : Crawl World -> Prop) seed w :
  normalize_url bracketed_host_ok start_url start_url = Ok seed ->
  P (mkCrawl [seed] ∅ [] w [] [] []) ->
  (forall st, crawl_inv st -> P st -> P (outcome_state (pass st))) ->
  forall fuel, P (outcome_state (run fuel w)).
Proof.
  intros Hseed Hstart Hstep fuel. unfold scrape_centers. rewrite Hseed.
  apply crawl_loop_keeps; [done | apply crawl_inv_seed | done].
Qed.

(** A pass takes up the head of the queue, or ends the loop. *)
Lemma iteration_head (st : Crawl World) :
  crawl_inv st ->
  (queue st = [] /\ outcome_state (pass st) = st)
  \/ exists url rest, queue st = url :: rest /\ url ∉ visited st.
Proof.
  intros (_ & _ & _ & Hqv). unfold iteration.
  destruct (queue st) as [|url rest]; [by left|]. right.
  exists url, rest. split; [done|]. apply Hqv. by left.
Qed.

Lemma crawl_stays_on_host_pass seed parsed_seed (st : Crawl World) :
  urlparse bracketed_host_ok seed [] = Ok parsed_seed ->
  crawl_inv st ->
  (forall u, u ∈ crawl_order st ->
     u = seed
     \/ exists kind,
          classify_location_url bracketed_host_ok u (netloc parsed_seed) = Ok (Some kind)) ->
  forall u, u ∈ crawl_order (outcome_state (pass st)) ->
    u = seed
    \/ exists kind,
         classify_location_url bracketed_host_ok u (netloc parsed_seed) = Ok (Some kind).
Proof.
  intros Hseed Hinv HP.
  destruct (iteration_head st Hinv) as [[_ ->] | (url & rest & Hq & Hfresh)]; [done|].
  destruct (iteration_fetched st url rest Hq Hfresh) as (_ & Htrace & _ & Hqueue & _).
  unfold crawl_order in *. rewrite Htrace. rewrite Hq in HP.
  intros u [[Hu | ->%list_elem_of_singleton]%elem_of_app | Hu]%elem_of_app.
  - apply HP. apply elem_of_app. by left.
  - apply HP. apply elem_of_app. right. by left.
  - assert (Hrest : u ∈ rest -> u = seed \/ exists kind,
        classify_location_url bracketed_host_ok u (netloc parsed_seed) = Ok (Some kind)).
    { intros Hin. apply HP. apply elem_of_app. right. by right. }
    destruct Hqueue as [Hqueue | (html & links & _ & Hlinks & Hqueue)];
      rewrite Hqueue in Hu; [auto|].
    apply enqueue_all_elem in Hu as [Hu | Hu%set_order_elem]; [auto|].
    destruct (extract_location_links_elem _ _ _ _ _ Hlinks Hu)
      as (parsed_base & link & kind & Hbase & _ & _ & _ & Hkind).
    right. exists kind.
    assert (Hhost : netloc parsed_base = netloc parsed_seed); [|by rewrite <- Hhost].
    destruct (HP url) as [-> | [k Hk]].
    + apply elem_of_app. right. by left.
    + congruence.
    + apply classify_location_url_netloc in Hk as (p & Hp & <-). congruence.
Qed.

(** X13: the crawl stays on the host of the seed URL: every URL it has
    fetched or queued, after any number of passes, is the seed or a URL that
    [classify_location_url] takes for a state or city page of the seed's
    host. *)
Theorem crawl_stays_on_host (seed : pystr) (parsed_seed : ParseResult)
    (fuel : nat) (w : World) :
  normalize_url bracketed_host_ok start_url start_url = Ok seed ->
  urlparse bracketed_host_ok seed [] = Ok parsed_seed ->
  forall u,
    u ∈ crawl_order (outcome_state (run fuel w)) ->
    u = seed
    \/ exists kind,
         classify_location_url bracketed_host_ok u (netloc parsed_seed) = Ok (Some kind).
Proof.
  intros Hnorm Hseed.
  apply (scrape_centers_keeps
           (fun st => forall u, u ∈ crawl_order st ->
              u = seed
              \/ exists kind,
                   classify_location_url bracketed_host_ok u (netloc parsed_seed)
                   = Ok (Some kind)) seed w Hnorm).
  - intros u Hu. left. unfold crawl_order in Hu. simpl in Hu.
    by apply list_elem_of_singleton in Hu.
  - intros st Hinv HP. by apply crawl_stays_on_host_pass.
Qed.

Lemma crawl_loop_add n k (st : Crawl World) :
  loop (n + k) st = match loop n st with Running st' => loop k st' | o => o end.
Proof.
  revert st. induction n as [|n IH]; intros st; simpl; [done|].
  destruct (pass st) as [st'| |]; [apply IH | done..].
Qed.

(** The loop only returns from its test, with the queue empty. *)
Lemma iteration_returned (st : Crawl World) unique final :
  pass st = Returned unique final ->
  final = st /\ queue st = [] /\ unique = dedupe_centers (centers st).
Proof.
  unfold iteration. destruct (queue st) as [|url rest]; [by intros [= <- <-]|].
  case_bool_decide; [done|].
  destruct (fetch_html (world st) url) as [w [html|e]]; cbn [fst snd].
  - destruct (extract_location_from_url _ _ url) as [[ds dc]|e]; [|done].
    destruct (page_centers json_loads (parse_html html) url ds dc) as [[page made]|e];
      [|done].
    by destruct (extract_location_links _ _ url).
  - by destruct (caught e).
Qed.

Lemma crawl_loop_returned fuel (st : Crawl World) unique final :
  loop fuel st = Returned unique final ->
  queue final = [] /\ unique = dedupe_centers (centers final).
Proof.
  revert st. induction fuel as [|fuel IH]; intros st; simpl; [done|].
  destruct (pass st) as [st'|e st'|u st'] eqn:Hpass; [apply IH | done |].
  intros [= <- <-]. apply iteration_returned in Hpass as (-> & Hq & Hu). done.
Qed.

Lemma crawl_order_pass (st : Crawl World) :
  crawl_inv st -> crawl_order st `prefix_of` crawl_order (outcome_state (pass st)).
Proof.
  intros Hinv.
  destruct (iteration_head st Hinv) as [[_ ->] | (url & rest & Hq & Hfresh)]; [done|].
  destruct (iteration_fetched st url rest Hq Hfresh) as (_ & Htrace & _ & Hqueue & _).
  unfold crawl_order. rewrite Htrace, Hq, <- app_assoc. apply prefix_app. simpl.
  apply prefix_cons.
  destruct Hqueue as [-> | (html & links & _ & _ & ->)]; [done|].
  apply enqueue_all_prefix.
Qed.

Lemma crawl_order_loop fuel (st : Crawl World) :
  crawl_inv st -> crawl_order st `prefix_of` crawl_order (outcome_state (loop fuel st)).
Proof.
  intros Hinv.
  apply (crawl_loop_keeps (fun st' => crawl_order st `prefix_of` crawl_order st'));
    [|done..].
  intros st' Hinv' Hpre. etrans; [exact Hpre|]. by apply crawl_order_pass.
Qed.

(** X14: the crawl is breadth first.  The sequence of the URLs fetched so
    far followed by those queued only grows at its end as the crawl goes
    on: URLs are fetched in the order in which they were first queued, and
    none that was queued is dropped or overtaken.  When the crawl returns,
    that sequence is the sequence of the fetches. *)
Theorem crawl_order_grows (fuel more : nat) (w : World) :
  crawl_order (outcome_state (run fuel w))
    `prefix_of` crawl_order (outcome_state (run (fuel + more) w))
  /\ (forall unique final,
        run fuel w = Returned unique final ->
        fetch_trace (calls final) = crawl_order final).
Proof.
  unfold scrape_centers.
  destruct (normalize_url bracketed_host_ok start_url start_url) as [seed|e]; [|done].
  split.
  - rewrite crawl_loop_add.
    pose proof (crawl_loop_inv bracketed_host_ok title json_loads parse_html set_order
                  World fetch_html start_url dump_html fuel _ (crawl_inv_seed seed w))
      as Hinv.
    destruct (loop fuel _) as [st'| |]; [|done..].
    by apply crawl_order_loop.
  - intros unique final [Hq _]%crawl_loop_returned.
    unfold crawl_order. by rewrite Hq, app_nil_r.
Qed.

Lemma crawl_inv_fetch_count (st : Crawl World) :
  crawl_inv st -> length (fetch_trace (calls st)) = size (visited st).
Proof.
  intros (Hnd & Hiff & _).
  rewrite <- (size_list_to_set (C:=gset pystr)) by done.
  f_equal. apply set_eq. intros u. by rewrite elem_of_list_to_set.
Qed.

Lemma crawl_terminates_loop (pages : gset pystr) :
  (forall w url html links,
     (fetch_html w url).2 = Ok html ->
     extract_location_links bracketed_host_ok (parse_html html) url = Ok links ->
     forall u, u ∈ links -> u ∈ pages) ->
  forall fuel (st : Crawl World),
    crawl_inv st ->
    (forall u, u ∈ queue st -> u ∈ pages) -> visited st ⊆ pages ->
    size pages - size (visited st) < fuel ->
    (forall st', loop fuel st <> Running st')
    /\ visited (outcome_state (loop fuel st)) ⊆ pages.
Proof.
  intros Hsite fuel. induction fuel as [|fuel IH]; intros st Hinv Hqueue Hvis Hsize; [lia|].
  simpl.
  pose proof (iteration_inv bracketed_host_ok title json_loads parse_html set_order
                World fetch_html start_url dump_html st Hinv) as Hinv'.
  destruct (iteration_head st Hinv) as [[Hq Hsame] | (url & rest & Hq & Hfresh)].
  { unfold iteration in *. rewrite Hq in *. done. }
  destruct (iteration_fetched st url rest Hq Hfresh) as (Hvisited & _ & _ & Hqueue' & _).
  assert (Hurl : url ∈ pages) by (apply Hqueue; rewrite Hq; by left).
  assert (Hvis' : visited (outcome_state (pass st)) ⊆ pages) by (rewrite Hvisited; set_solver).
  destruct (pass st) as [st'|e st'|unique st']; [|done..].
  cbn [outcome_state] in *. apply IH; [done| |done|].
  - intros u Hu.
    assert (Hrest : u ∈ rest -> u ∈ pages).
    { intros Hin. apply Hqueue. rewrite Hq. by right. }
    destruct Hqueue' as [Hqueue' | (html & links & Hhtml & Hlinks & Hqueue')];
      rewrite Hqueue' in Hu; [auto|].
    apply enqueue_all_elem in Hu as [Hu | Hu%set_order_elem]; [auto|].
    by apply (Hsite (world st) url html links).
  - rewrite Hvisited, size_union, size_singleton by set_solver.
    pose proof (subseteq_size _ _ Hvis') as Hle.
    rewrite Hvisited, size_union, size_singleton in Hle by set_solver. lia.
Qed.

(** X15: the crawl ends on a finite site.  When every location link of
    every page the fetcher can return lies in a finite set of pages, the loop
    has returned or raised within as many passes as there are pages (with the
    seed) and one more, and it has fetched at most that many URLs. *)
Theorem crawl_terminates (pages : gset pystr) (seed : pystr) (fuel : nat) (w : World) :
  normalize_url bracketed_host_ok start_url start_url = Ok seed ->
  (forall w url html links,
     (fetch_html w url).2 = Ok html ->
     extract_location_links bracketed_host_ok (parse_html html) url = Ok links ->
     forall u, u ∈ links -> u ∈ pages) ->
  size ({[seed]} ∪ pages) < fuel ->
  ((exists unique st, run fuel w = Returned unique st)
   \/ (exists e st, run fuel w = Raised e st))
  /\ length (fetch_trace (calls (outcome_state (run fuel w)))) <= size ({[seed]} ∪ pages).
Proof.
  intros Hseed Hsite Hfuel. unfold scrape_centers. rewrite Hseed.
  pose proof (crawl_inv_seed seed w) as Hinv.
  destruct (crawl_terminates_loop ({[seed]} ∪ pages)) with (fuel := fuel)
    (st := mkCrawl [seed] ∅ [] w [] [] []) as [Hstop Hvis]; try done.
  - intros w' url html links Hhtml Hlinks u Hu.
    apply elem_of_union_r. by apply (Hsite w' url html links).
  - simpl. intros u ->%list_elem_of_singleton. set_solver.
  - simpl. lia.
  - split.
    + destruct (loop fuel _) as [st'|e st'|unique st']; [by destruct (Hstop st') | eauto..].
    + rewrite crawl_inv_fetch_count by by apply crawl_loop_inv.
      by apply subseteq_size.
Qed.

Lemma html_dump_pass (st : Crawl World) :
  let clean u := has_char "?" u = false /\ has_char "#" u = false in
  crawl_inv st ->
  (forall u, u ∈ crawl_order st -> clean u)
  /\ (files st = []
      \/ exists file html,
           dump_html = Some file /\ files st = [(file, html)]
           /\ start_url ∈ visited st /\ clean start_url) ->
  (forall u, u ∈ crawl_order (outcome_state (pass st)) -> clean u)
  /\ (files (outcome_state (pass st)) = []
      \/ exists file html,
           dump_html = Some file /\ files (outcome_state (pass st)) = [(file, html)]
           /\ start_url ∈ visited (outcome_state (pass st)) /\ clean start_url).
Proof.
  intros clean Hinv [Hclean Hfiles].
  destruct (iteration_head st Hinv) as [[_ ->] | (url & rest & Hq & Hfresh)]; [done|].
  destruct (iteration_fetched st url rest Hq Hfresh)
    as (Hvisited & Htrace & _ & Hqueue & Hfiles' & _).
  assert (Hurl : clean url).
  { apply Hclean. unfold crawl_order. rewrite Hq. apply elem_of_app. right. by left. }
  split.
  - unfold crawl_order in *. rewrite Htrace. rewrite Hq in Hclean.
    intros u [[Hu | ->%list_elem_of_singleton]%elem_of_app | Hu]%elem_of_app.
    + apply Hclean. apply elem_of_app. by left.
    + done.
    + assert (Hrest : u ∈ rest -> clean u).
      { intros Hin. apply Hclean. apply elem_of_app. right. by right. }
      destruct Hqueue as [Hqueue | (html & links & _ & Hlinks & Hqueue)];
        rewrite Hqueue in Hu; [auto|].
      apply enqueue_all_elem in Hu as [Hu | Hu%set_order_elem]; [auto|].
      destruct (extract_location_links_elem _ _ _ _ _ Hlinks Hu)
        as (parsed_base & link & kind & _ & _ & Hnorm & _).
      by apply normalize_url_clean in Hnorm.
  - rewrite Hvisited.
    destruct Hfiles' as [-> | (file & html & Hdump & -> & _ & ->)].
    + destruct Hfiles as [? | (file & html & ? & ? & ? & ?)]; [by left|].
      right. exists file, html. split; [done|]. split; [done|].
      split; [set_solver | done].
    + destruct Hfiles as [-> | (file' & html' & _ & _ & Hin & _)]; [|done].
      right. exists file, html. split; [done|]. split; [done|].
      split; [set_solver | exact Hurl].
Qed.

(** X16: the HTML dump is written at most once, and only with a dump path
    and for a fetched URL that is the start URL as given.  The crawl fetches
    normalized URLs only, so a start URL with a query or a fragment is never
    dumped. *)
Theorem html_dump_written_once (fuel : nat) (w : World) :
  let st := outcome_state (run fuel w) in
  files st = []
  \/ exists file html,
       dump_html = Some file /\ files st = [(file, html)]
       /\ start_url ∈ fetch_trace (calls st)
       /\ has_char "?" start_url = false /\ has_char "#" start_url = false.
Proof.
  cbv zeta.
  destruct (normalize_url bracketed_host_ok start_url start_url) as [seed|e] eqn:Hseed.
  - pose proof (crawl_loop_inv bracketed_host_ok title json_loads parse_html set_order
                  World fetch_html start_url dump_html fuel _ (crawl_inv_seed seed w))
      as (_ & Hiff & _).
    destruct (scrape_centers_keeps
                (fun st =>
                   (forall u, u ∈ crawl_order st ->
                      has_char "?" u = false /\ has_char "#" u = false)
                   /\ (files st = []
                       \/ exists file html,
                            dump_html = Some file /\ files st = [(file, html)]
                            /\ start_url ∈ visited st
                            /\ has_char "?" start_url = false
                               /\ has_char "#" start_url = false))
                seed w Hseed) with (fuel := fuel) as [_ Hfiles].
    + split; [|by left]. unfold crawl_order. simpl.
      intros u ->%list_elem_of_singleton. by apply normalize_url_clean in Hseed.
    + intros st. apply html_dump_pass.
    + unfold scrape_centers in *. rewrite Hseed in *.
      destruct Hfiles as [? | (file & html & ? & ? & ?%Hiff & ? & ?)]; [by left|].
      right. by exists file, html.
  - left. unfold scrape_centers. by rewrite Hseed.
Qed.

End Site.

Lemma first_added_elem adds u : u ∈ first_added adds -> u ∈ adds.
Proof. unfold first_added. by rewrite elem_of_remove_dups. Qed.

Lemma crawl_stays_on_host_witness :
  texas_url ∈ crawl_order (outcome_state (site_crawl first_added 2))
  /\ (texas_url = seed_url
      \/ exists kind,
           classify_location_url no_brackets texas_url (py "example.com") = Ok (Some kind)).
Proof.
  assert (Hin : texas_url ∈ crawl_order (outcome_state (site_crawl first_added 2))).
  { apply list_elem_of_In. vm_compute. right. left. reflexivity. }
  split; [exact Hin|].
  apply (crawl_stays_on_host no_brackets (fun s => s) site_json_loads site_parse_html
           first_added nat site_fetch seed_url None first_added_elem seed_url
           (mkParse (py "https") (py "example.com") (py "/usa/") [] [] []) 2 0).
  - vm_compute. reflexivity.
  - vm_compute. reflexivity.
  - exact Hin.
Defined.

Lemma site_links_known (w : nat) url html links :
  (site_fetch w url).2 = Ok html ->
  extract_location_links no_brackets (site_parse_html html) url = Ok links ->
  forall u, u ∈ links -> u ∈ ({[texas_url; ohio_url]} : gset pystr).
Proof.
  unfold site_fetch, str_eqb. cbn [snd]. intros Hhtml Hlinks u Hu.
  repeat case_bool_decide; subst; try discriminate; injection Hhtml as <-.
  - vm_compute in Hlinks. injection Hlinks as <-.
    apply elem_of_cons in Hu as [-> | Hu].
    { apply elem_of_union_l, elem_of_singleton. reflexivity. }
    apply list_elem_of_singleton in Hu as ->.
    apply elem_of_union_r, elem_of_singleton. reflexivity.
  - vm_compute in Hlinks. injection Hlinks as <-. by apply elem_of_nil in Hu.
Qed.

Lemma crawl_terminates_witness :
  ((exists unique st, site_crawl first_added 4 = Returned unique st)
   \/ (exists e st, site_crawl first_added 4 = Raised e st))
  /\ length (fetch_trace (calls (outcome_state (site_crawl first_added 4))))
     <= size ({[seed_url]} ∪ ({[texas_url; ohio_url]} : gset pystr)).
Proof.
  apply (crawl_terminates no_brackets (fun s => s) site_json_loads site_parse_html
           first_added nat site_fetch seed_url None first_added_elem
           {[texas_url; ohio_url]} seed_url 4 0).
  - vm_compute. reflexivity.
  - exact site_links_known.
  - vm_compute. lia.
Defined.

Lemma html_dump_written_once_witness :
  let st :=
    outcome_state
      (scrape_centers no_brackets (fun s => s) site_json_loads site_parse_html
         first_added site_fetch 4 (py "https://example.com/usa/?all")
         (Some (py "dump.html")) 0) in
  files st = []
  \/ exists file html,
       Some (py "dump.html") = Some file /\ files st = [(file, html)]
       /\ py "https://example.com/usa/?all" ∈ fetch_trace (calls st)
       /\ has_char "?" (py "https://example.com/usa/?all") = false
       /\ has_char "#" (py "https://example.com/usa/?all") = false.
Proof.
  apply (html_dump_written_once no_brackets (fun s => s) site_json_loads site_parse_html
           first_added nat site_fetch (py "https://example.com/usa/?all")
           (Some (py "dump.html")) first_added_elem 4 0).
Defined.

(** * The command line *)

Section MainRun.

Variable bracketed_host_ok : pystr -> bool.
Variable title : pystr -> pystr.
Variable json_loads : pystr -> option json.
Variable parse_html : pystr -> Soup.
Variable set_order : list pystr -> list pystr.
Variable World : Type.
Variable fetch_html : World -> pystr -> World * result pystr.

Local Abbreviation main_run :=
  (main bracketed_host_ok title json_loads parse_html set_order fetch_html).

Lemma scrape_centers_returned fuel start_url dump_html (w : World) unique final :
  scrape_centers bracketed_host_ok title json_loads parse_html set_order fetch_html
    fuel start_url dump_html w = Returned unique final ->
  unique = dedupe_centers (centers final)
  /\ forall more,
       scrape_centers bracketed_host_ok title json_loads parse_html set_order fetch_html
         (fuel + more) start_url dump_html w = Returned unique final.
Proof.
  unfold scrape_centers.
  destruct (normalize_url bracketed_host_ok start_url start_url) as [seed|e]; [|done].
  intros Hloop. split.
  - by apply crawl_loop_returned in Hloop as [_ ->].
  - intros more. by apply crawl_loop_more.
Qed.

(** X17: a run of [main] that returns gives exit code 1 or 0.  With 1 it
    found no record: it wrote no CSV file, printed nothing to the standard
    output, and the last line on the standard error says so.  With 0 it wrote
    one CSV file, at the output path: the header row and one row per record,
    no two records with the same name and url, and printed the number of
    records.  More passes allowed to the crawl do not change the run. *)
Theorem main_exit_code (fuel : nat) (args : Namespace) (w : World) (ran : Ran) :
  main_run fuel args w = MainReturned ran ->
  ((exit_code ran = 1 /\ csv_files ran = [] /\ out_lines ran = []
    /\ last (err_lines ran)
       = Some (py "No data centers found. Consider using --dump-html to inspect the page"))
   \/ (exit_code ran = 0
       /\ exists centers,
            centers <> [] /\ NoDup (key <$> centers)
            /\ csv_files ran = [(arg_output args, csv_header :: map csv_row centers)]
            /\ out_lines ran
               = [py "Wrote " ++ str_of_nat (length centers) ++ py " records to "
                  ++ arg_output args]))
  /\ forall more, main_run (fuel + more) args w = MainReturned ran.
Proof.
  unfold main.
  destruct (scrape_centers _ _ _ _ _ _ fuel _ _ w) as [st|e st|centers st] eqn:Hrun;
    [done..|].
  apply scrape_centers_returned in Hrun as [Hunique Hmore].
  intros Hran. split.
  - destruct centers as [|c centers]; injection Hran as <-.
    + left. cbn. by rewrite last_snoc.
    + right. split; [done|]. exists (c :: centers).
      split; [done|]. split; [|done]. rewrite Hunique. apply dedupe_centers_NoDup.
  - intros more. by rewrite Hmore.
Qed.

End MainRun.

Lemma main_exit_code_witness :
  exists ran,
    main no_brackets (fun s => s) site_json_loads site_parse_html first_added site_fetch
      4 (mkNamespace seed_url (py "output/datacenters_usa.csv") None) 0
    = MainReturned ran
    /\ exit_code ran = 0
    /\ forall more,
         main no_brackets (fun s => s) site_json_loads site_parse_html first_added
           site_fetch (4 + more)
           (mkNamespace seed_url (py "output/datacenters_usa.csv") None) 0
         = MainReturned ran.
Proof.
  eexists. split; [vm_compute; reflexivity|]. split; [reflexivity|].
  eapply main_exit_code. vm_compute. reflexivity.
Defined.

Lemma csv_row_inj a b : csv_row a = csv_row b -> a = b.
Proof. destruct a, b. unfold csv_row. simpl. by intros [= -> -> -> -> -> ->]. Qed.

(** X18: [write_csv] hands the writer the header row and then one row per
    record, in order, each of six fields; the records can be read back from
    the rows: two lists of records with the same rows are the same. *)
Theorem write_csv_rows (centers : list DataCenter) :
  length (write_csv centers) = S (length centers)
  /\ Forall (fun row => length row = 6) (write_csv centers)
  /\ write_csv centers !! 0 = Some csv_header
  /\ (forall i, write_csv centers !! S i = csv_row <$> centers !! i)
  /\ (forall other, write_csv other = write_csv centers -> other = centers).
Proof.
  unfold write_csv. split; [|split; [|split; [|split]]].
  - simpl. by rewrite length_map.
  - apply Forall_cons. split; [done|]. apply Forall_forall.
    by intros row (c & -> & _)%list_elem_of_fmap.
  - done.
  - intros i. simpl. apply list_lookup_fmap.
  - intros other Hrows.
    assert (map csv_row other = map csv_row centers) as Hmap by congruence.
    assert (Inj (=) (=) csv_row) by (intros a b; apply csv_row_inj).
    by apply (list_fmap_eq_inj csv_row) in Hmap.
Qed.

Lemma crawl_order_grows_witness :
  crawl_order (outcome_state (site_crawl first_added 2))
    `prefix_of` crawl_order (outcome_state (site_crawl first_added (2 + 2))).
Proof.
  apply (crawl_order_grows no_brackets (fun s => s) site_json_loads site_parse_html
           first_added nat site_fetch seed_url None first_added_elem 2 2 0).
Defined.

(** * Names from slugs *)

Lemma lstrip_split p s :
  exists l, s = l ++ lstrip p s /\ Forall (fun c => p c = true) l.
Proof.
  induction s as [|c s (l & Hs & Hl)]; simpl; [by exists []|].
  destruct (p c) eqn:Hc; [|by exists []].
  exists (c :: l). split; [by rewrite Hs at 1 | by constructor].
Qed.

Lemma lstrip_head p s c : head (lstrip p s) = Some c -> p c = false.
Proof.
  induction s as [|x s IH]; simpl; [done|].
  destruct (p x) eqn:Hx; [done|]. simpl. by intros [= <-].
Qed.

Lemma rstrip_split p s :
  exists r, s = rstrip p s ++ r /\ Forall (fun c => p c = true) r.
Proof.
  unfold rstrip. destruct (lstrip_split p (rev s)) as (l & Hs & Hl).
  exists (rev l). split; [|by apply Forall_rev].
  by rewrite <- rev_app_distr, <- Hs, rev_involutive.
Qed.

Lemma rstrip_last p s c : last (rstrip p s) = Some c -> p c = false.
Proof.
  unfold rstrip. rewrite rev_alt.
  change (rev_append (lstrip p (rev s)) []) with (reverse (lstrip p (rev s))).
  rewrite last_reverse. apply lstrip_head.
Qed.

Section Slugs.

Variable title : pystr -> pystr.

(** X19: [slug_to_name] title-cases the slug with its hyphens turned
    into spaces and without the whitespace at either end: the text handed
    to [title] holds no hyphen, neither starts nor ends with whitespace, and
    what was cut off around it is whitespace only. *)
Theorem slug_to_name_text (slug : pystr) :
  exists text l r,
    slug_to_name title slug = title text
    /\ replace_char "-" " " slug = l ++ text ++ r
    /\ Forall (fun c => isspace c = true) l
    /\ Forall (fun c => isspace c = true) r
    /\ (forall c, head text = Some c -> isspace c = false)
    /\ (forall c, last text = Some c -> isspace c = false)
    /\ has_char "-" text = false
    /\ length text <= length slug.
Proof.
  unfold slug_to_name, strip.
  set (spaced := replace_char "-" " " slug).
  destruct (lstrip_split isspace spaced) as (l & Hl & Hlspace).
  destruct (rstrip_split isspace (lstrip isspace spaced)) as (r & Hr & Hrspace).
  set (text := rstrip isspace (lstrip isspace spaced)) in *.
  assert (Hspaced : spaced = l ++ text ++ r) by (by rewrite <- Hr).
  exists text, l, r. do 4 (split; [done|]). split; [|split; [|split]].
  - intros c Hc. apply (lstrip_head isspace spaced). rewrite Hr.
    by destruct text.
  - apply rstrip_last.
  - assert (Hno : has_char "-" spaced = false).
    { subst spaced. unfold replace_char. apply has_char_false, Forall_forall.
      intros x (y & -> & _)%list_elem_of_fmap.
      destruct (char_eqb y "-") eqn:Hy; [done|].
      intros ->. by rewrite char_eqb_refl in Hy. }
    rewrite Hspaced, !has_char_app in Hno.
    by apply orb_false_iff in Hno as [_ [Htext _]%orb_false_iff].
  - assert (length spaced = length slug) as <- by apply length_map.
    rewrite Hspaced, !length_app. lia.
Qed.

End Slugs.
